(** * The template engine of build.js (PVTFC static site generator)

    A shallow embedding of [resolvePath], [findBlockEnd] and [render] from
    build.js, and of the context that [build] renders a page with, followed
    by the properties of the rendering engine.

    Modelling conventions.
    - A JavaScript string is a [string]: one character per UTF-16 code unit,
      for code units below 256.  [is_space] is the regular-expression class
      \s on that range, [is_word] the class \w.
    - A JavaScript number is a [Z]: an integer-valued number.  The numbers
      the engine itself produces (@index, lengths) are such; fractions, NaN
      and the infinities are outside the model, and the two zeroes of
      JavaScript, which behave alike here, are not told apart.  Only a safe
      integer (below 2^53 in absolute value) is printed by [toString]:
      beyond, JavaScript rounds and switches to exponent notation.
    - A plain object (a JSON mapping, a context, the partial registry) is a
      [gmap] of its own properties; a property read that finds no own
      property falls back to Object.prototype, whose standard members are
      listed in [objectPrototype].
    - Every computation returns an [outcome]: [Done] with its result,
      [Throws] for a TypeError, [OutOfFuel] when the recursion budget of
      [render] is used up (unbounded recursion through partials), and
      [Unmodelled] when it reaches into the JavaScript library beyond
      what the model describes: a read of a member that arrays, strings,
      numbers, booleans and functions inherit from their own prototypes,
      or of a property of a built-in function other than its length, its
      name and the throwing accessors caller and arguments; the printing
      of a number that is not a safe integer; the conversion of a mapping
      whose toString or valueOf entry is a function.  What build.js does
      from there on is outside the model.
    - [render] takes a recursion budget; its result is the output with the
      console.warn lines in the order they were written. *)

From Stdlib Require Import ZArith String Ascii List Lia Bool.
From stdpp Require Import gmap strings list pretty.

Set Warnings "-register-all".
#[local] Arguments String.append !_ _ / : simpl nomatch.
#[local] Arguments Ascii.eqb !_ !_ / : simpl nomatch.

(** ** Characters and strings *)

Definition code (c : ascii) : N := N_of_ascii c.

Definition in_range (lo hi : N) (c : ascii) : bool :=
  ((lo <=? code c) && (code c <=? hi))%N.

(** The class \w: [A-Za-z0-9_]. *)
Definition is_word (c : ascii) : bool :=
  in_range 48 57 c || in_range 65 90 c || in_range 97 122 c || (code c =? 95)%N.

(** The class \s on code units below 256: tab, line feed, vertical tab, form
    feed, carriage return, space, no-break space. *)
Definition is_space (c : ascii) : bool :=
  in_range 9 13 c || (code c =? 32)%N || (code c =? 160)%N.

(** The class [\w.] of the block tags. *)
Definition is_path_char (c : ascii) : bool :=
  is_word c || (code c =? 46)%N.

(** The class [\w.@] of the variable tag. *)
Definition is_var_char (c : ascii) : bool :=
  is_path_char c || (code c =? 64)%N.

(** [s.slice(n)] *)
Fixpoint sliceFrom (n : nat) (s : string) : string :=
  match n, s with
  | 0, _ => s
  | S n', String _ s' => sliceFrom n' s'
  | S _, EmptyString => EmptyString
  end.

(** [s.slice(0, n)] *)
Fixpoint sliceTo (n : nat) (s : string) : string :=
  match n, s with
  | 0, _ => EmptyString
  | S n', String c s' => String c (sliceTo n' s')
  | S _, EmptyString => EmptyString
  end.

(** [s.startsWith(p)] *)
Fixpoint startsWith (p s : string) : bool :=
  match p, s with
  | EmptyString, _ => true
  | String a p', String b s' => Ascii.eqb a b && startsWith p' s'
  | String _ _, EmptyString => false
  end.

(** [s.indexOf(needle)], [None] for -1. *)
Fixpoint indexOf (needle s : string) : option nat :=
  if startsWith needle s then Some 0
  else match s with
       | EmptyString => None
       | String _ s' => S <$> indexOf needle s'
       end.

(** [s.split(sep)] for a one-character separator. *)
Fixpoint split (sep : ascii) (s : string) : list string :=
  match s with
  | EmptyString => [EmptyString]
  | String c s' =>
      if Ascii.eqb c sep then EmptyString :: split sep s'
      else match split sep s' with
           | h :: t => String c h :: t
           | [] => [String c EmptyString]
           end
  end.

(** The longest prefix of [s] whose characters satisfy [p], and what
    follows it: a greedy class repetition. *)
Fixpoint span (p : ascii -> bool) (s : string) : string * string :=
  match s with
  | EmptyString => (EmptyString, EmptyString)
  | String c s' =>
      if p c then let '(a, b) := span p s' in (String c a, b)
      else (EmptyString, s)
  end.

(** [s] without the literal prefix [p], when it starts with it. *)
Definition stripPrefix (p s : string) : option string :=
  if startsWith p s then Some (sliceFrom (String.length p) s) else None.

(** Every character of [s] is in the class [p]. *)
Fixpoint all_chars (p : ascii -> bool) (s : string) : bool :=
  match s with
  | EmptyString => true
  | String c s' => p c && all_chars p s'
  end.

(** [s] does not begin with a character of the class [p]. *)
Definition stops (p : ascii -> bool) (s : string) : bool :=
  match s with
  | EmptyString => true
  | String c _ => negb (p c)
  end.

(** A non-empty run of characters of the class [p]: what [p+] matches. *)
Definition run (p : ascii -> bool) (s : string) : bool :=
  negb (String.eqb s "") && all_chars p s.

(** ** Outcomes *)

Inductive outcome (A : Type) : Type :=
| Done (a : A)
| Throws
| OutOfFuel
| Unmodelled.
Arguments Done {A} a.
Arguments Throws {A}.
Arguments OutOfFuel {A}.
Arguments Unmodelled {A}.

Definition bind {A B : Type} (o : outcome A) (k : A -> outcome B) : outcome B :=
  match o with
  | Done a => k a
  | Throws => Throws
  | OutOfFuel => OutOfFuel
  | Unmodelled => Unmodelled
  end.

Notation "'let*' x ':=' o 'in' k" := (bind o (fun x => k))
  (at level 10, x name, o at level 100, k at level 200).

(** ** Values *)

(** A built-in object reached through Object.prototype: a native function
    with its name and its declared number of parameters, or the prototype
    object itself. *)
Inductive builtin : Type :=
| BFunction (name : string) (arity : nat)
| BObjectPrototype.

Inductive value : Type :=
| VUndefined
| VNull
| VBool (b : bool)
| VNum (z : Z)
| VStr (s : string)
| VArr (items : list value)
| VObj (props : gmap string value)
| VBuiltin (b : builtin).

(** The word-named members of Object.prototype. *)
Definition objectPrototype (key : string) : option builtin :=
  if decide (key = "constructor") then Some (BFunction "Object" 1)
  else if decide (key = "hasOwnProperty") then Some (BFunction key 1)
  else if decide (key = "isPrototypeOf") then Some (BFunction key 1)
  else if decide (key = "propertyIsEnumerable") then Some (BFunction key 1)
  else if decide (key = "toLocaleString") then Some (BFunction key 0)
  else if decide (key = "toString") then Some (BFunction key 0)
  else if decide (key = "valueOf") then Some (BFunction key 0)
  else if decide (key = "__defineGetter__") then Some (BFunction key 2)
  else if decide (key = "__defineSetter__") then Some (BFunction key 2)
  else if decide (key = "__lookupGetter__") then Some (BFunction key 1)
  else if decide (key = "__lookupSetter__") then Some (BFunction key 1)
  else if decide (key = "__proto__") then Some BObjectPrototype
  else None.

Definition inherited (key : string) : value :=
  match objectPrototype key with
  | Some b => VBuiltin b
  | None => VUndefined
  end.

(** The element of [l] whose index prints as [key], as in [arr["2"]]. *)
Fixpoint atKey {A : Type} (key : string) (i : nat) (l : list A) : option A :=
  match l with
  | [] => None
  | x :: l' => if decide (pretty i = key) then Some x else atKey key (S i) l'
  end.

(** The characters of a string, each as a one-character string. *)
Fixpoint chars (s : string) : list string :=
  match s with
  | EmptyString => []
  | String c s' => String c EmptyString :: chars s'
  end.

(** A decimal numeral: the only keys, besides length, under which an array
    or a string can hold an element; no prototype has a member so named. *)
Definition is_numeral (key : string) : bool := run (in_range 48 57) key.

(** The property read [v[key]].  A read on undefined or null raises a
    TypeError.  An array and a string answer for length and for numerals,
    a built-in function for length and name, and raises on caller and
    arguments; their other keys reach into the library. *)
Definition get (v : value) (key : string) : outcome value :=
  match v with
  | VUndefined | VNull => Throws
  | VBool _ | VNum _ => Unmodelled
  | VStr s =>
      if decide (key = "length") then Done (VNum (Z.of_nat (String.length s)))
      else match atKey key 0 (chars s) with
           | Some c => Done (VStr c)
           | None => if is_numeral key then Done VUndefined else Unmodelled
           end
  | VArr items =>
      if decide (key = "length") then Done (VNum (Z.of_nat (length items)))
      else match atKey key 0 items with
           | Some item => Done item
           | None => if is_numeral key then Done VUndefined else Unmodelled
           end
  | VObj props => Done (default (inherited key) (props !! key))
  | VBuiltin (BFunction name arity) =>
      if decide (key = "length") then Done (VNum (Z.of_nat arity))
      else if decide (key = "name") then Done (VStr name)
      else if decide (key = "caller") then Throws
      else if decide (key = "arguments") then Throws
      else Unmodelled
  | VBuiltin BObjectPrototype =>
      if decide (key = "__proto__") then Done VNull else Done (inherited key)
  end.

(** The coercion of a condition, [val ? a : b] and [!val]. *)
Definition truthy (v : value) : bool :=
  match v with
  | VUndefined | VNull => false
  | VBool b => b
  | VNum z => negb (z =? 0)%Z
  | VStr s => negb (String.eqb s "")
  | VArr _ | VObj _ | VBuiltin _ => true
  end.

(** [Array.isArray(v)] *)
Definition isArray (v : value) : option (list value) :=
  match v with
  | VArr items => Some items
  | _ => None
  end.

(** [parts.join(sep)] *)
Fixpoint join (sep : string) (parts : list string) : string :=
  match parts with
  | [] => ""
  | [s] => s
  | s :: rest => s +:+ sep +:+ join sep rest
  end.

(** The safe integers: those that JavaScript prints digit for digit. *)
Definition is_safe (z : Z) : bool := (Z.abs z <? 2 ^ 53)%Z.

(** [String(v)].  A mapping is converted by the toString it inherits,
    unless it has an entry of that name: an entry that is not a function
    cannot be called, nor can an entry valueOf, and the valueOf it inherits
    returns the mapping itself, so the conversion raises a TypeError; an
    entry that is a built-in function would be called. *)
Fixpoint toString (v : value) : outcome string :=
  match v with
  | VUndefined => Done "undefined"
  | VNull => Done "null"
  | VBool true => Done "true"
  | VBool false => Done "false"
  | VNum z => if is_safe z then Done (pretty z) else Unmodelled
  | VStr s => Done s
  | VArr items =>
      let* parts := (fix each (l : list value) : outcome (list string) :=
                       match l with
                       | [] => Done []
                       | x :: l' =>
                           let* s := match x with
                                     | VUndefined | VNull => Done ""
                                     | _ => toString x
                                     end in
                           let* ss := each l' in
                           Done (s :: ss)
                       end) items in
      Done (join "," parts)
  | VObj props =>
      match props !! "toString" with
      | None => Done "[object Object]"
      | Some (VBuiltin (BFunction _ _)) => Unmodelled
      | Some _ =>
          match props !! "valueOf" with
          | Some (VBuiltin (BFunction _ _)) => Unmodelled
          | _ => Throws
          end
      end
  | VBuiltin (BFunction name _) =>
      Done ("function " +:+ name +:+ "() { [native code] }")
  | VBuiltin BObjectPrototype => Done "[object Object]"
  end.

(** ** Path resolution *)

(** The callback of the reduce in [resolvePath]. *)
Definition resolveStep (acc : value) (key : string) : outcome value :=
  match acc with
  | VUndefined | VNull => Done (VStr "")
  | _ => get acc key
  end.

(** [keys.reduce(step, acc)], stopping at the first error. *)
Fixpoint reduce (step : value -> string -> outcome value)
    (keys : list string) (acc : value) : outcome value :=
  match keys with
  | [] => Done acc
  | key :: keys' => let* acc' := step acc key in reduce step keys' acc'
  end.

Definition resolvePath (obj : value) (dotPath : string) : outcome value :=
  reduce resolveStep (split "." dotPath) obj.

(** ** The tag patterns *)

(** [/^\{\{>\s*(\w+)\s*\}\}/]: the captured name and the length of the
    match.  The classes \s and \w are disjoint and neither contains the
    closing brace, so the greedy repetitions never give characters back. *)
Definition match_partial (s : string) : option (string * nat) :=
  match stripPrefix "{{>" s with
  | None => None
  | Some s1 =>
      let '(ws1, s2) := span is_space s1 in
      let '(name, s3) := span is_word s2 in
      let '(ws2, s4) := span is_space s3 in
      if String.eqb name "" then None
      else if startsWith "}}" s4
           then Some (name, String.length "{{>" + String.length ws1
                            + String.length name + String.length ws2
                            + String.length "}}")
           else None
  end.

(** [/^\{\{#kind\s+([\w.]+)\}\}/] for kind each, if or unless: the captured
    path and the length of the match.  Here too the classes are disjoint
    and exclude the closing brace, so the greedy spans are the match. *)
Definition match_block (kind : string) (s : string) : option (string * nat) :=
  match stripPrefix ("{{#" +:+ kind) s with
  | None => None
  | Some s1 =>
      let '(ws, s2) := span is_space s1 in
      let '(path, s3) := span is_path_char s2 in
      if String.eqb ws "" || String.eqb path "" then None
      else if startsWith "}}" s3
           then Some (path, String.length ("{{#" +:+ kind) + String.length ws
                            + String.length path + String.length "}}")
           else None
  end.

(** [/^\{\{([\w.@]+)\}\}/]: the captured path and the length of the match. *)
Definition match_var (s : string) : option (string * nat) :=
  match stripPrefix "{{" s with
  | None => None
  | Some s1 =>
      let '(path, s2) := span is_var_char s1 in
      if String.eqb path "" then None
      else if startsWith "}}" s2
           then Some (path, String.length "{{" + String.length path
                            + String.length "}}")
           else None
  end.

(** The first alternative of a pattern [(a|b|...)] that matches. *)
Fixpoint firstAlt (m : string -> option nat) (alts : list string) : option nat :=
  match alts with
  | [] => None
  | alt :: alts' =>
      match m alt with
      | Some len => Some len
      | None => firstAlt m alts'
      end
  end.

(** An unanchored [s.match(pattern)]: the index of the leftmost match and
    its length, for a pattern given by its match at the start of a string. *)
Fixpoint search (m : string -> option nat) (s : string) : option (nat * nat) :=
  match m s with
  | Some len => Some (0, len)
  | None =>
      match s with
      | EmptyString => None
      | String _ s' =>
          match search m s' with
          | Some (idx, len) => Some (S idx, len)
          | None => None
          end
      end
  end.

(** ** The block scanner *)

(** The block kinds [findBlockEnd] is called with. *)
Inductive blockTag : Type := TagEach | TagIf | TagUnless.

Definition tagName (tag : blockTag) : string :=
  match tag with
  | TagEach => "each"
  | TagIf => "if"
  | TagUnless => "unless"
  end.

Definition alternatives (tag : blockTag) : list string :=
  [tagName tag; "if"; "each"; "unless"].

(** openPattern, [\{\{#(?:tag|if|each|unless)\s], at the start of [s]. *)
Definition openPattern (tag : blockTag) (s : string) : option nat :=
  firstAlt (fun alt =>
      match stripPrefix ("{{#" +:+ alt) s with
      | Some (String c _) =>
          if is_space c then Some (String.length ("{{#" +:+ alt) + 1) else None
      | _ => None
      end) (alternatives tag).

(** closePattern, [\{\{/(tag|if|each|unless)\}\}], at the start of [s]. *)
Definition closePattern (tag : blockTag) (s : string) : option nat :=
  firstAlt (fun alt =>
      if startsWith ("{{/" +:+ alt +:+ "}}") s
      then Some (String.length ("{{/" +:+ alt +:+ "}}")) else None)
    (alternatives tag).

Record block : Type := Block { body : string; rest : string }.

(** The while loop of [findBlockEnd].  [n] bounds the number of iterations:
    every iteration moves [pos] forward, so the bound chosen below is never
    what stops the loop ([findBlockEnd_loop_bound]). *)
Fixpoint findBlockEnd_loop (n : nat) (content : string) (tag : blockTag)
    (depth pos : nat) : block :=
  match n with
  | 0 => Block content ""
  | S n' =>
      if (0 <? depth) && (pos <? String.length content) then
        let remaining := sliceFrom pos content in
        let openMatch := search (openPattern tag) remaining in
        let closeMatch := search (closePattern tag) remaining in
        match closeMatch with
        | None => Block content ""
        | Some (closeIdx, closeLen) =>
            let onClose :=
              if depth - 1 =? 0 then
                Block (sliceTo (pos + closeIdx) content)
                      (sliceFrom (pos + closeIdx + closeLen) content)
              else findBlockEnd_loop n' content tag (depth - 1)
                     (pos + closeIdx + closeLen) in
            match openMatch with
            | Some (openIdx, openLen) =>
                if openIdx <? closeIdx
                then findBlockEnd_loop n' content tag (depth + 1)
                       (pos + openIdx + openLen)
                else onClose
            | None => onClose
            end
        end
      else Block content ""
  end.

Definition findBlockEnd (content : string) (tag : blockTag) : block :=
  findBlockEnd_loop (S (String.length content)) content tag 1 0.

(** ** The else split of an if block *)

(** [/^\{\{\/(if|each|unless)\}\}/] *)
Definition closeTag (s : string) : bool :=
  startsWith "{{/if}}" s || startsWith "{{/each}}" s || startsWith "{{/unless}}" s.

(** The for loop over the body of an if block: [suffix] is [body.slice(i)];
    the result is the index at which the loop breaks. *)
Fixpoint elseScan (suffix : string) (i : nat) (depth : Z) : option nat :=
  match suffix with
  | EmptyString => None
  | String _ suffix' =>
      let depth1 := if startsWith "{{#" suffix then (depth + 1)%Z else depth in
      let depth2 := if closeTag suffix then (depth1 - 1)%Z else depth1 in
      if (depth2 =? 0)%Z && startsWith "{{else}}" suffix then Some i
      else elseScan suffix' (S i) depth2
  end.

(** [ifBody] and [elseBody]. *)
Definition splitElse (body : string) : string * string :=
  match elseScan body 0 0 with
  | Some i => (sliceTo i body, sliceFrom (i + String.length "{{else}}") body)
  | None => (body, "")
  end.

(** ** The renderer *)

(** What a call of [render] leaves behind: the returned text and the lines
    written with console.warn. *)
Definition rendered : Type := string * list string.

Definition nothing : rendered := ("", []).

(** [resolvePath(context, path)] inside [render]. *)
Definition resolve (context : gmap string value) (dotPath : string) : outcome value :=
  resolvePath (VObj context) dotPath.

(** What the read [partials[name]] yields: the registry is a plain object
    whose own properties are the partial texts, so a name that is not a
    key of it is looked up in Object.prototype. *)
Inductive entry : Type :=
| Own (text : string)
| Inherited (b : builtin)
| Absent.

Definition lookupPartial (partials : gmap string string) (name : string) : entry :=
  match partials !! name with
  | Some text => Own text
  | None =>
      match objectPrototype name with
      | Some b => Inherited b
      | None => Absent
      end
  end.

(** [!partial] *)
Definition falsy (partial : entry) : bool :=
  match partial with
  | Own text => String.eqb text ""
  | Inherited _ => false
  | Absent => true
  end.

Definition quote : string := String "034" "".

Definition warning (name : string) : string :=
  "Warning: Partial " +:+ quote +:+ name +:+ quote +:+ " not found".

(** [{ ...context, this: item, '@index': index, '@first': index === 0,
      '@last': index === arr.length - 1 }] *)
Definition itemContext (context : gmap string value) (item : value)
    (index len : nat) : gmap string value :=
  <["@last" := VBool (Z.of_nat index =? Z.of_nat len - 1)%Z]>
    (<["@first" := VBool (index =? 0)]>
       (<["@index" := VNum (Z.of_nat index)]>
          (<["this" := item]> context))).

(** [items.map(f)] for a callback that renders: the calls are made in
    element order, and the first one that fails ends the map. *)
Fixpoint mapIndexed (f : value -> nat -> outcome rendered) (index : nat)
    (items : list value) : outcome (list rendered) :=
  match items with
  | [] => Done []
  | item :: items' =>
      let* r := f item index in
      let* rs := mapIndexed f (S index) items' in
      Done (r :: rs)
  end.

(** [rs.join('')] on the texts, with the warnings of the calls in order. *)
Definition joined (rs : list rendered) : rendered :=
  (join "" (map fst rs), concat (map snd rs)).

(** [render(partial, context, partials)] for a truthy registry read.  A
    built-in is not a string: when its length lets the while loop start,
    the call of indexOf on it raises a TypeError; the prototype object has
    no length and the loop does not start.  [Absent] is undefined, whose
    length cannot be read; it is falsy, so [render] is never called on it. *)
Definition renderEntry (rec : string -> outcome rendered) (partial : entry)
    : outcome rendered :=
  match partial with
  | Own text => rec text
  | Inherited (BFunction _ arity) => if 0 <? arity then Throws else Done nothing
  | Inherited BObjectPrototype => Done nothing
  | Absent => Throws
  end.

Record state : Type := State {
  output : string;
  warnings : list string;
  remaining : string
}.

(** How one iteration of the while loop of [render] ends. *)
Inductive step : Type :=
| Break (r : rendered)
| Continue (st : state).

Definition emit (st : state) (out : string) (r : rendered) (remaining' : string) : outcome step :=
  Done (Continue (State (out +:+ r.1) (warnings st ++ r.2) remaining')).

(** The body of the while loop of [render]; [rec] stands for the calls
    [render(template, context, partials)] that the body makes. *)
Definition loop_body
    (rec : string -> gmap string value -> gmap string string -> outcome rendered)
    (context : gmap string value) (partials : gmap string string)
    (st : state) : outcome step :=
  match indexOf "{{" (remaining st) with
  | None => Done (Break (output st +:+ remaining st, warnings st))
  | Some tagIdx =>
      let out := output st +:+ sliceTo tagIdx (remaining st) in
      let remaining := sliceFrom tagIdx (remaining st) in
      match match_partial remaining with
      | Some (name, len) =>
          let partial := lookupPartial partials name in
          let* r := (if falsy partial then Done ("", [warning name])
                else renderEntry (fun text => rec text context partials) partial) in
          emit st out r (sliceFrom len remaining)
      | None =>
      match match_block "each" remaining with
      | Some (path, len) =>
          let remaining := sliceFrom len remaining in
          let b := findBlockEnd remaining TagEach in
          let* arr := resolve context path in
          let* r := match isArray arr with
               | Some items =>
                   let* rs := mapIndexed (fun item index =>
                       rec (body b) (itemContext context item index (length items))
                         partials)
                     0 items in
                   Done (joined rs)
               | None => Done nothing
               end in
          emit st out r (rest b)
      | None =>
      match match_block "if" remaining with
      | Some (path, len) =>
          let remaining := sliceFrom len remaining in
          let b := findBlockEnd remaining TagIf in
          let* val := resolve context path in
          let '(ifBody, elseBody) := splitElse (body b) in
          let* r := rec (if truthy val then ifBody else elseBody) context partials in
          emit st out r (rest b)
      | None =>
      match match_block "unless" remaining with
      | Some (path, len) =>
          let remaining := sliceFrom len remaining in
          let b := findBlockEnd remaining TagUnless in
          let* val := resolve context path in
          let* r := (if negb (truthy val) then rec (body b) context partials
                else Done nothing) in
          emit st out r (rest b)
      | None =>
      match match_var remaining with
      | Some (path, len) =>
          let* val := resolve context path in
          let* text := match val with
                       | VUndefined | VNull => Done ""
                       | _ => toString val
                       end in
          emit st out (text, []) (sliceFrom len remaining)
      | None =>
          emit st out ("{{", []) (sliceFrom 2 remaining)
      end end end end end
  end.

(** The while loop of [render], started in state [st]. *)
Fixpoint render_loop (fuel : nat) (context : gmap string value)
    (partials : gmap string string) (st : state) : outcome rendered :=
  if 0 <? String.length (remaining st) then
    match fuel with
    | 0 => OutOfFuel
    | S fuel' =>
        let* s := loop_body (fun template context' partials' =>
                          render_loop fuel' context' partials' (State "" [] template))
               context partials st in
        match s with
        | Break r => Done r
        | Continue st' => render_loop fuel' context partials st'
        end
    end
  else Done (output st, warnings st).

Definition render (fuel : nat) (template : string) (context : gmap string value)
    (partials : gmap string string) : outcome rendered :=
  render_loop fuel context partials (State "" [] template).

(** ** The context of a page *)

(** The context that [build] renders the template of the page [pageName]
    with: [{ ...data, page: pageName, [`page_${pageName}`]: true }]. *)
Definition pageContext (data : gmap string value) (pageName : string)
    : gmap string value :=
  <["page_" +:+ pageName := VBool true]> (<["page" := VStr pageName]> data).

(** ** Vocabulary of the statements *)

(** undefined or null *)
Definition nullish (v : value) : bool :=
  match v with
  | VUndefined | VNull => true
  | _ => false
  end.

(** [o'] is [o] run with a larger budget: it agrees with [o] unless [o]
    ran out of fuel. *)
Definition refines {A : Type} (o o' : outcome A) : Prop :=
  o = OutOfFuel \/ o = o'.

(** The result [r] placed after the output [out] and the warnings [log]
    accumulated before it. *)
Definition after (out : string) (log : list string) (r : rendered) : rendered :=
  (out +:+ r.1, log ++ r.2).

(** An opening tag of a block, as the scanner sees it, starts at index [j]
    of [content]. *)
Definition opensAt (tag : blockTag) (content : string) (j : nat) : bool :=
  match openPattern tag (sliceFrom j content) with
  | Some _ => true
  | None => false
  end.

(** A closing tag of a block starts at index [j] of [content]. *)
Definition closesAt (tag : blockTag) (content : string) (j : nat) : bool :=
  match closePattern tag (sliceFrom j content) with
  | Some _ => true
  | None => false
  end.

(** The number of indices below [n] at which [f] holds. *)
Fixpoint countBelow (f : nat -> bool) (n : nat) : nat :=
  match n with
  | 0 => 0
  | S n' => countBelow f n' + (if f n' then 1 else 0)
  end.

(** The nesting depth of the text before index [i] of the content of a
    block: one for the block itself, plus the opening tags and minus the
    closing tags that start before [i]. *)
Definition depthBefore (tag : blockTag) (content : string) (i : nat) : Z :=
  1 + Z.of_nat (countBelow (opensAt tag content) i)
    - Z.of_nat (countBelow (closesAt tag content) i).

(** The nesting depth once a tag starting at index [i] is counted. *)
Definition depthAfter (tag : blockTag) (content : string) (i : nat) : Z :=
  depthBefore tag content (S i).

(** The state a loop iteration leads to, moved after earlier output. *)
Definition shift (out : string) (log : list string) (s : step) : step :=
  match s with
  | Break r => Break (after out log r)
  | Continue st =>
      Continue (State (out +:+ output st) (log ++ warnings st) (remaining st))
  end.

(** A partial reference tag occurs somewhere in [s]. *)
Fixpoint hasPartialTag (s : string) : bool :=
  match match_partial s with
  | Some _ => true
  | None =>
      match s with
      | EmptyString => false
      | String _ s' => hasPartialTag s'
      end
  end.

(** The marker of an opening tag, as the else split sees it, starts at
    index [j] of [body]. *)
Definition markerAt (body : string) (j : nat) : bool :=
  startsWith "{{#" (sliceFrom j body).

(** A closing tag, as the else split sees it, starts at index [j]. *)
Definition closeTagAt (body : string) (j : nat) : bool :=
  closeTag (sliceFrom j body).

(** The else marker starts at index [j] of [body]. *)
Definition elseAt (body : string) (j : nat) : bool :=
  startsWith "{{else}}" (sliceFrom j body).

(** The depth counter of the else split before index [i] is looked at. *)
Definition elseDepthBefore (body : string) (i : nat) : Z :=
  Z.of_nat (countBelow (markerAt body) i) - Z.of_nat (countBelow (closeTagAt body) i).

(** The depth counter of the else split when index [i] is tested. *)
Definition elseDepth (body : string) (i : nat) : Z :=
  elseDepthBefore body (S i).

(** What a variable tag puts out for the value it resolves to. *)
Definition shown (val : value) : outcome string :=
  match val with
  | VUndefined | VNull => Done ""
  | _ => toString val
  end.

(** The characters with which a tag can go on after its marker: those of a
    variable path, the sign of a partial and the sign of a block. *)
Definition is_tag_start (c : ascii) : bool :=
  is_var_char c || Ascii.eqb c ">" || Ascii.eqb c "#".

(** * Properties *)

#[local] Arguments startsWith !_ !_ / : simpl nomatch.

(** ** The engine at work *)

Example render_variable :
  render 2 "{{a.b}}" (<["a" := VObj (<["b" := VStr "x"]> ∅)]> ∅) ∅ = Done ("x", []) /\
  render 2 "{{a.c}}" (<["a" := VObj (<["b" := VStr "x"]> ∅)]> ∅) ∅ = Done ("", []).
Proof. by vm_compute. Qed.

Example render_each_order :
  render 9 "{{#each xs}}{{@index}}:{{this.n}} {{/each}}"
    (<["xs" := VArr [VObj (<["n" := VNum 5]> ∅); VObj (<["n" := VNum 9]> ∅)]]> ∅) ∅
  = Done ("0:5 1:9 ", []).
Proof. by vm_compute. Qed.

Example render_if_else :
  render 3 "{{#if flag}}Y{{else}}N{{/if}}" (<["flag" := VBool false]> ∅) ∅
  = Done ("N", []) /\
  render 3 "{{#if flag}}Y{{else}}N{{/if}}" (<["flag" := VBool true]> ∅) ∅
  = Done ("Y", []).
Proof. by vm_compute. Qed.

Example render_unless_negation :
  render 3 "{{#unless flag}}Z{{/unless}}" (<["flag" := VBool true]> ∅) ∅
  = Done ("", []) /\
  render 3 "{{#unless flag}}Z{{/unless}}" (<["flag" := VBool false]> ∅) ∅
  = Done ("Z", []).
Proof. by vm_compute. Qed.

Example render_nested_blocks :
  render 9 "{{#if a}}1{{#each xs}}{{#if this}}2{{/if}}{{/each}}{{else}}3{{/if}}!"
    (<["xs" := VArr [VBool true; VBool false; VBool true]]> (<["a" := VNum 1]> ∅)) ∅
  = Done ("122!", []) /\
  render 9 "{{#if a}}1{{#each xs}}{{#if this}}2{{/if}}{{/each}}{{else}}3{{/if}}!"
    (<["xs" := VArr [VBool true]]> ∅) ∅
  = Done ("3!", []).
Proof. by vm_compute. Qed.

Example render_partial_context :
  render 5 "<{{> head}}>" (<["site" := VObj (<["name" := VStr "PVTFC"]> ∅)]> ∅)
    (<["head" := "{{site.name}}"]> ∅)
  = Done ("<PVTFC>", []) /\
  render 5 "<{{> foot}}>" ∅ (<["head" := "{{site.name}}"]> ∅)
  = Done ("<>", [warning "foot"]).
Proof. by vm_compute. Qed.

Example render_unterminated_if :
  render 5 "a{{#if x}}b{{y}}c" (<["x" := VNum 1]> (<["y" := VStr "!"]> ∅)) ∅
  = Done ("ab!c", []).
Proof. by vm_compute. Qed.

Example render_self_reference :
  render 40 "{{> me}}" ∅ (<["me" := "x{{> me}}"]> ∅) = OutOfFuel.
Proof. by vm_compute. Qed.

(** ** Strings *)

Lemma app_empty_r (s : string) : s +:+ "" = s.
Proof. induction s as [|c s IH]; simpl; [done | by rewrite IH]. Qed.

Lemma app_assoc_s (a b c : string) : (a +:+ b) +:+ c = a +:+ (b +:+ c).
Proof. induction a as [|x a IH]; simpl; [done | by rewrite IH]. Qed.

Lemma length_app_s (a b : string) :
  String.length (a +:+ b) = String.length a + String.length b.
Proof. induction a as [|x a IH]; simpl; [done | by rewrite IH]. Qed.

Lemma length_sliceFrom (n : nat) (s : string) :
  String.length (sliceFrom n s) = String.length s - n.
Proof.
  revert s; induction n as [|n IH]; intros [|c s]; simpl; auto with lia.
Qed.

Lemma length_sliceTo (n : nat) (s : string) :
  String.length (sliceTo n s) = n `min` String.length s.
Proof.
  revert s; induction n as [|n IH]; intros [|c s]; simpl; try done.
  by rewrite IH.
Qed.

Lemma sliceTo_sliceFrom (n : nat) (s : string) :
  sliceTo n s +:+ sliceFrom n s = s.
Proof.
  revert s; induction n as [|n IH]; intros [|c s]; simpl; try done.
  by rewrite IH.
Qed.

Lemma sliceFrom_sliceFrom (n m : nat) (s : string) :
  sliceFrom n (sliceFrom m s) = sliceFrom (m + n) s.
Proof.
  revert s; induction m as [|m IH]; intros s; simpl; [done|].
  destruct s as [|c s]; [by destruct n | apply IH].
Qed.

Lemma sliceFrom_app (a b : string) : sliceFrom (String.length a) (a +:+ b) = b.
Proof. induction a as [|x a IH]; simpl; done. Qed.

Lemma sliceTo_app (a b : string) : sliceTo (String.length a) (a +:+ b) = a.
Proof. induction a as [|x a IH]; simpl; [by destruct b | by rewrite IH]. Qed.

Lemma sliceFrom_ge (n : nat) (s : string) :
  String.length s <= n -> sliceFrom n s = "".
Proof.
  revert s; induction n as [|n IH]; intros [|c s]; simpl; auto with lia.
Qed.

Lemma sliceTo_ge (n : nat) (s : string) :
  String.length s <= n -> sliceTo n s = s.
Proof.
  revert s; induction n as [|n IH]; intros [|c s]; simpl; auto with lia.
  intros ?; rewrite IH; [done | lia].
Qed.

Lemma startsWith_app (p s : string) : startsWith p (p +:+ s) = true.
Proof.
  induction p as [|c p IH]; simpl; [done|].
  by rewrite Ascii.eqb_refl.
Qed.

Lemma startsWith_inv (p s : string) :
  startsWith p s = true -> s = p +:+ sliceFrom (String.length p) s.
Proof.
  revert s; induction p as [|c p IH]; intros s; simpl; [done|].
  destruct s as [|d s]; [done|].
  intros [->%Ascii.eqb_eq Hp]%andb_prop. simpl. by rewrite <- IH.
Qed.

Lemma stripPrefix_app (p s : string) : stripPrefix p (p +:+ s) = Some s.
Proof. unfold stripPrefix. by rewrite startsWith_app, sliceFrom_app. Qed.

Lemma stripPrefix_inv (p s r : string) : stripPrefix p s = Some r -> s = p +:+ r.
Proof.
  unfold stripPrefix. destruct (startsWith p s) eqn:Hp; [|done].
  intros [= <-]. by apply startsWith_inv.
Qed.

Lemma indexOf_unfold (needle s : string) :
  indexOf needle s =
  if startsWith needle s then Some 0
  else match s with
       | EmptyString => None
       | String _ s' => S <$> indexOf needle s'
       end.
Proof. by destruct s. Qed.

Lemma indexOf_None (needle s : string) :
  indexOf needle s = None -> forall j, startsWith needle (sliceFrom j s) = false.
Proof.
  induction s as [|c s IH]; rewrite indexOf_unfold;
    destruct (startsWith needle _) eqn:Hs; try done.
  - intros _ [|j]; done.
  - intros Hi [|j]; [done|]. simpl. apply IH. by destruct (indexOf needle s).
Qed.

Lemma indexOf_first (needle s : string) (i : nat) :
  indexOf needle s = Some i -> forall j, j < i -> startsWith needle (sliceFrom j s) = false.
Proof.
  revert i; induction s as [|c s IH]; intros i; rewrite indexOf_unfold;
    destruct (startsWith needle _) eqn:Hs; try done;
    try (intros [= <-] j ?; lia).
  destruct (indexOf needle s) as [i'|]; [|done]. intros [= <-] [|j] ?; [done|].
  simpl. apply (IH i'); [done | lia].
Qed.

(** ** Path resolution *)

Lemma split_nonempty (sep : ascii) (s : string) : split sep s <> [].
Proof.
  induction s as [|c s IH]; simpl; [done|].
  destruct (Ascii.eqb c sep); [done|]. by destruct (split sep s).
Qed.

Lemma split_app_sep (sep : ascii) (a b : string) :
  split sep (a +:+ String sep b) = split sep a ++ split sep b.
Proof.
  induction a as [|c a IH]; simpl.
  - by rewrite Ascii.eqb_refl.
  - destruct (Ascii.eqb c sep); [by rewrite IH|].
    rewrite IH. pose proof (split_nonempty sep a).
    by destruct (split sep a).
Qed.

Lemma reduce_app (step : value -> string -> outcome value)
    (keys1 keys2 : list string) (acc : value) :
  reduce step (keys1 ++ keys2) acc =
  let* acc' := reduce step keys1 acc in reduce step keys2 acc'.
Proof.
  revert acc; induction keys1 as [|k keys1 IH]; intros acc; simpl; [done|].
  destruct (step acc k); simpl; [apply IH | done..].
Qed.

Lemma reduce_Throws (keys : list string) (acc : value) :
  reduce resolveStep keys acc = Throws ->
  exists keys1 key keys2 acc',
    keys = keys1 ++ key :: keys2 /\ reduce resolveStep keys1 acc = Done acc' /\
    nullish acc' = false /\ get acc' key = Throws.
Proof.
  revert acc; induction keys as [|k keys IH]; intros acc; simpl; [done|].
  destruct (resolveStep acc k) as [acc''| | |] eqn:Hstep; simpl; try done.
  - intros (keys1 & key & keys2 & acc' & -> & H1 & H2 & H3)%IH.
    exists (k :: keys1), key, keys2, acc'. simpl. by rewrite Hstep.
  - intros _. exists [], k, keys, acc. by destruct acc.
Qed.

(** C4, amended.  A step of [resolvePath] whose accumulator is null or
    undefined reads nothing and yields the empty string, so that a null or
    undefined intermediate value never makes the resolution raise, and
    when it is met at the last segment the result is the empty string.  A
    TypeError of [resolvePath] is always the TypeError of the read of a
    segment on the value, neither null nor undefined, that the segments
    before it lead to. *)
Theorem resolvePath_sentinel (obj : value) (pre key : string) (acc : value) :
  resolvePath obj pre = Done acc ->
  nullish acc = true ->
  split "." key = [key] ->
  resolveStep acc key = Done (VStr "") /\
  resolvePath obj (pre +:+ "." +:+ key) = Done (VStr "") /\
  (forall dotPath, resolvePath obj dotPath = Throws ->
     exists keys1 key' keys2 acc',
       split "." dotPath = keys1 ++ key' :: keys2 /\
       reduce resolveStep keys1 obj = Done acc' /\
       nullish acc' = false /\ get acc' key' = Throws).
Proof.
  intros Hpre Hnull Hkey.
  assert (Hstep : resolveStep acc key = Done (VStr "")) by (by destruct acc).
  split; [done|]. split; [|intros dotPath; apply reduce_Throws].
  unfold resolvePath in *. simpl String.append.
  rewrite split_app_sep, reduce_app, Hpre, Hkey. simpl. by rewrite Hstep.
Qed.

(** The path a.b in an empty context: a is undefined, so b yields the
    empty string. *)
Lemma resolvePath_sentinel_witness :
  resolvePath (VObj ∅) "a" = Done VUndefined /\
  resolveStep VUndefined "b" = Done (VStr "") /\
  resolvePath (VObj ∅) "a.b" = Done (VStr "").
Proof.
  split; [reflexivity|].
  destruct (resolvePath_sentinel (VObj ∅) "a" "b" VUndefined) as (H1 & H2 & _);
    [reflexivity | reflexivity | reflexivity |].
  split; [exact H1 | exact H2].
Defined.

(** C4, counterexample: a is missing, yet a.b.length does not resolve to the
    empty string; the lookup goes on and reads the length of the sentinel.
    And a read can raise: the accessor caller of the function that every
    mapping inherits as its constructor. *)
Lemma resolvePath_no_short_circuit :
  resolvePath (VObj ∅) "a" = Done VUndefined /\
  resolvePath (VObj ∅) "a.b.length" = Done (VNum 0) /\
  resolvePath (VObj ∅) "a.b.length" <> Done (VStr "") /\
  render 2 "{{a.b.length}}" ∅ ∅ = Done ("0", []) /\
  resolvePath (VObj ∅) "constructor.caller" = Throws.
Proof. by vm_compute. Qed.

(** ** The tag patterns *)

Lemma span_app (p : ascii -> bool) (a b : string) :
  all_chars p a = true -> stops p b = true -> span p (a +:+ b) = (a, b).
Proof.
  intros Ha Hb. induction a as [|c a IH]; simpl in *.
  - destruct b as [|d b]; simpl in *; [done|].
    by apply negb_true_iff in Hb as ->.
  - apply andb_prop in Ha as [-> Ha]. by rewrite IH.
Qed.

Lemma span_spec (p : ascii -> bool) (s a b : string) :
  span p s = (a, b) ->
  s = a +:+ b /\ all_chars p a = true /\ stops p b = true.
Proof.
  revert a b; induction s as [|c s IH]; intros a b; simpl.
  - by intros [= <- <-].
  - destruct (p c) eqn:Hc.
    + destruct (span p s) as [a' b'] eqn:Hs. intros [= <- <-].
      destruct (IH a' b' eq_refl) as (-> & ? & ?). simpl. by rewrite Hc.
    + intros [= <- <-]. simpl. by rewrite Hc.
Qed.

Lemma run_inv (p : ascii -> bool) (s : string) :
  run p s = true -> exists c s', s = String c s' /\ p c = true /\ all_chars p s = true.
Proof.
  unfold run. destruct s as [|c s]; simpl; [done|].
  intros Hp. exists c, s. by destruct (andb_prop _ _ Hp).
Qed.

Lemma class_disjoint_word_space (c : ascii) : is_word c = true -> is_space c = false.
Proof. destruct c as [[] [] [] [] [] [] [] []]; by vm_compute. Qed.

Lemma class_disjoint_path_space (c : ascii) : is_path_char c = true -> is_space c = false.
Proof. destruct c as [[] [] [] [] [] [] [] []]; by vm_compute. Qed.

Lemma stops_closing (p : ascii -> bool) (s : string) :
  p "}"%char = false -> stops p ("}}" +:+ s) = true.
Proof. simpl. by intros ->. Qed.

Lemma stops_run (p q : ascii -> bool) (a b : string) :
  (forall c, q c = true -> p c = false) -> run q a = true -> stops p (a +:+ b) = true.
Proof.
  intros Hpq (c & s' & -> & Hc & _)%run_inv. simpl. by rewrite (Hpq c Hc).
Qed.

Lemma run_nonempty (p : ascii -> bool) (s : string) :
  run p s = true -> String.eqb s "" = false.
Proof. unfold run. intros [? _]%andb_prop. by apply negb_true_iff. Qed.

Lemma run_all (p : ascii -> bool) (s : string) :
  run p s = true -> all_chars p s = true.
Proof. unfold run. by intros [_ ?]%andb_prop. Qed.

(** A block tag written out is matched, with its path and its length. *)
Lemma match_block_tag (kind ws path content : string) :
  run is_space ws = true -> run is_path_char path = true ->
  match_block kind ("{{#" +:+ kind +:+ ws +:+ path +:+ "}}" +:+ content)
  = Some (path, String.length ("{{#" +:+ kind +:+ ws +:+ path +:+ "}}")).
Proof.
  intros Hws Hpath. unfold match_block.
  rewrite <- (app_assoc_s "{{#" kind), stripPrefix_app.
  rewrite (span_app is_space ws); [|by apply run_all|].
  2:{ apply stops_run with is_path_char; [apply class_disjoint_path_space | done]. }
  rewrite (span_app is_path_char path); [|by apply run_all | by apply stops_closing].
  rewrite (run_nonempty _ _ Hws), (run_nonempty _ _ Hpath). simpl orb. cbv iota.
  rewrite startsWith_app. do 2 f_equal.
  rewrite !length_app_s. simpl. lia.
Qed.

(** ** The loop of [render]: accumulated output *)

Lemma after_after (out out' : string) (log log' : list string) (r : rendered) :
  after out log (after out' log' r) = after (out +:+ out') (log ++ log') r.
Proof. unfold after. simpl. by rewrite app_assoc_s, app_assoc. Qed.

Lemma bind_assoc {A B C : Type} (o : outcome A) (k : A -> outcome B) (h : B -> outcome C) :
  bind (bind o k) h = bind o (fun a => bind (k a) h).
Proof. by destruct o. Qed.

Lemma bind_ext {A B : Type} (o : outcome A) (k k' : A -> outcome B) :
  (forall a, k a = k' a) -> bind o k = bind o k'.
Proof. intros Hk. destruct o; simpl; auto. Qed.

Lemma emit_shift (out pre : string) (log : list string) (r : rendered) (rem rem' : string) :
  emit (State out log rem) (out +:+ pre) r rem'
  = bind (emit (State "" [] rem) pre r rem') (fun s => Done (shift out log s)).
Proof.
  unfold emit. simpl. by rewrite app_assoc_s.
Qed.

Lemma loop_body_shift rec context partials out log rem :
  loop_body rec context partials (State out log rem)
  = bind (loop_body rec context partials (State "" [] rem))
         (fun s => Done (shift out log s)).
Proof.
  unfold loop_body. simpl output. simpl warnings. simpl remaining.
  destruct (indexOf "{{" rem) as [tagIdx|];
    [|by simpl; unfold after; simpl; rewrite app_nil_r].
  change ("" +:+ sliceTo tagIdx rem) with (sliceTo tagIdx rem).
  repeat match goal with
  | |- context [match ?m with Some _ => _ | None => _ end] =>
      lazymatch m with
      | isArray _ => fail
      | _ => destruct m as [[? ?]|]
      end
  end;
  repeat first
    [ apply emit_shift
    | rewrite bind_assoc
    | apply bind_ext; intros ?
    | match goal with |- context [splitElse ?b] => destruct (splitElse b) end ].
Qed.

Lemma render_loop_unfold fuel context partials st :
  render_loop fuel context partials st =
  if 0 <? String.length (remaining st) then
    match fuel with
    | 0 => OutOfFuel
    | S fuel' =>
        bind (loop_body (render fuel') context partials st)
          (fun s => match s with
                    | Break r => Done r
                    | Continue st' => render_loop fuel' context partials st'
                    end)
    end
  else Done (output st, warnings st).
Proof. by destruct fuel. Qed.

Lemma render_loop_shift fuel context partials out log rem :
  render_loop fuel context partials (State out log rem)
  = bind (render fuel rem context partials) (fun r => Done (after out log r)).
Proof.
  revert out log rem; induction fuel as [|fuel IH]; intros out log rem;
    unfold render; rewrite !render_loop_unfold; simpl remaining;
    destruct (0 <? String.length rem); simpl;
    try (by unfold after; simpl; rewrite app_empty_r, app_nil_r); [done|].
  rewrite loop_body_shift, !bind_assoc. apply bind_ext. intros [r|[o' l' r']]; simpl; [done|].
  rewrite (IH (out +:+ o')), (IH o'), bind_assoc. apply bind_ext. intros r. simpl.
  by rewrite after_after.
Qed.

(** One iteration of the loop of [render], then the rest of the loop, from
    the empty output. *)
Lemma render_unfold fuel template context partials :
  render (S fuel) template context partials =
  if 0 <? String.length template then
    bind (loop_body (render fuel) context partials (State "" [] template))
      (fun s => match s with
                | Break r => Done r
                | Continue st =>
                    bind (render fuel (remaining st) context partials)
                      (fun r => Done (after (output st) (warnings st) r))
                end)
  else Done nothing.
Proof.
  unfold render at 1. rewrite render_loop_unfold. simpl remaining.
  destruct (0 <? String.length template); [|done].
  apply bind_ext. intros [r|[o l r]]; [done|]. apply render_loop_shift.
Qed.

Lemma render_empty fuel context partials : render fuel "" context partials = Done nothing.
Proof. by destruct fuel. Qed.

(** ** Larger budgets *)

Lemma refines_refl {A : Type} (o : outcome A) : refines o o.
Proof. by right. Qed.

Lemma refines_bind {A B : Type} (o o' : outcome A) (k k' : A -> outcome B) :
  refines o o' -> (forall a, refines (k a) (k' a)) -> refines (bind o k) (bind o' k').
Proof.
  intros [->| <-] Hk; [by left|].
  destruct o; simpl; [apply Hk | by right | by left | by right].
Qed.

Lemma refines_mapIndexed (f f' : value -> nat -> outcome rendered) index items :
  (forall item i, refines (f item i) (f' item i)) ->
  refines (mapIndexed f index items) (mapIndexed f' index items).
Proof.
  intros Hf. revert index; induction items as [|item items IH]; intros index; simpl.
  - apply refines_refl.
  - apply refines_bind; [apply Hf|]. intros r.
    apply refines_bind; [apply IH|]. intros rs. apply refines_refl.
Qed.

Lemma refines_loop_body rec rec' context partials st :
  (forall t c p, refines (rec t c p) (rec' t c p)) ->
  refines (loop_body rec context partials st) (loop_body rec' context partials st).
Proof.
  intros Hrec. unfold loop_body.
  repeat match goal with
  | |- context [match ?m with Some _ => _ | None => _ end] =>
      lazymatch m with
      | isArray _ => fail
      | _ => destruct m as [[? ?]|]
      end
  | |- context [indexOf ?a ?b] => destruct (indexOf a b)
  end;
  repeat first
    [ apply refines_refl
    | apply refines_bind; [|intros ?]
    | apply refines_mapIndexed; intros ? ?
    | apply Hrec
    | match goal with
      | |- context [splitElse ?b] => destruct (splitElse b)
      | |- context [if ?c then _ else _] => destruct c
      | |- context [match isArray ?a with _ => _ end] => destruct (isArray a)
      | |- context [renderEntry _ ?e] => destruct e as [?|[? ?|]|]; simpl
      end ].
Qed.

Lemma refines_render_loop fuel fuel' context partials st :
  fuel <= fuel' ->
  refines (render_loop fuel context partials st) (render_loop fuel' context partials st).
Proof.
  revert fuel' context partials st; induction fuel as [|fuel IH];
    intros fuel' context partials st Hle;
    rewrite !render_loop_unfold; destruct (0 <? String.length (remaining st));
    try apply refines_refl; [by left|].
  destruct fuel' as [|fuel']; [lia|].
  apply refines_bind.
  - apply refines_loop_body. intros t c p. apply IH. lia.
  - intros [r|st']; [apply refines_refl | apply IH; lia].
Qed.

Lemma refines_render fuel fuel' template context partials :
  fuel <= fuel' ->
  refines (render fuel template context partials) (render fuel' template context partials).
Proof. apply refines_render_loop. Qed.

Lemma render_more_fuel fuel fuel' template context partials r :
  render fuel template context partials = Done r -> fuel <= fuel' ->
  render fuel' template context partials = Done r.
Proof.
  intros Hr Hle. destruct (refines_render fuel fuel' template context partials Hle) as [H|H];
    congruence.
Qed.

Lemma mapIndexed_ext (f g : value -> nat -> outcome rendered) index items :
  (forall item i, f item i = g item i) ->
  mapIndexed f index items = mapIndexed g index items.
Proof.
  intros Hfg. revert index; induction items as [|item items IH]; intros index; simpl;
    [done|]. rewrite Hfg. apply bind_ext. intros r. by rewrite IH.
Qed.

(** ** The block scanner *)

Lemma search_Some (m : string -> option nat) (s : string) (i len : nat) :
  search m s = Some (i, len) <->
  m (sliceFrom i s) = Some len /\ forall j, j < i -> m (sliceFrom j s) = None.
Proof.
  revert i; induction s as [|c s IH]; intros i; simpl.
  - destruct (m "") as [l|] eqn:Hm.
    + split.
      * intros [= <- <-]. split; [done | lia].
      * intros [Hi Hj]. destruct i as [|i]; [simpl in Hi; congruence|].
        specialize (Hj 0 ltac:(lia)). simpl in Hj. congruence.
    + split; [done|]. intros [Hi _]. destruct i; simpl in Hi; congruence.
  - destruct (m (String c s)) as [l|] eqn:Hm.
    + split.
      * intros [= <- <-]. split; [done | lia].
      * intros [Hi Hj]. destruct i as [|i]; [simpl in Hi; congruence|].
        specialize (Hj 0 ltac:(lia)). simpl in Hj. congruence.
    + destruct (search m s) as [[i' l']|] eqn:Hs.
      * split.
        -- intros [= <- <-]. destruct (proj1 (IH i') eq_refl) as [Hi Hj].
           split; [done|]. intros [|j] ?; [done | apply Hj; lia].
        -- intros [Hi Hj]. destruct i as [|i]; [simpl in Hi; congruence|].
           simpl in Hi. assert (Some (i', l') = Some (i, len)) as Hs'.
           { apply IH. split; [done|]. intros j ?. apply (Hj (S j)). lia. }
           congruence.
      * split; [done|]. intros [Hi Hj]. destruct i as [|i]; [simpl in Hi; congruence|].
        simpl in Hi. assert (@None (nat * nat) = Some (i, len)) as Hs'.
        { apply IH. split; [done|]. intros j ?. apply (Hj (S j)). lia. }
        congruence.
Qed.

Lemma search_None (m : string -> option nat) (s : string) :
  search m s = None <-> forall j, m (sliceFrom j s) = None.
Proof.
  induction s as [|c s IH]; simpl.
  - destruct (m "") eqn:Hm.
    + split; [done|]. intros Hj. specialize (Hj 0). simpl in Hj. congruence.
    + split; [|done]. intros _ [|j]; done.
  - destruct (m (String c s)) eqn:Hm.
    + split; [done|]. intros Hj. specialize (Hj 0). simpl in Hj. congruence.
    + destruct (search m s) as [[i l]|] eqn:Hs.
      * split; [done|]. intros Hj.
        assert (Some (i, l) = None) as Hn; [|done]. apply IH.
        intros j. apply (Hj (S j)).
      * split; [|done]. intros _ [|j]; [done|]. simpl. by apply IH.
Qed.

Lemma countBelow_skip (f : nat -> bool) (n k : nat) :
  (forall j, n <= j < n + k -> f j = false) -> countBelow f (n + k) = countBelow f n.
Proof.
  induction k as [|k IH]; intros Hf.
  - by rewrite Nat.add_0_r.
  - rewrite Nat.add_succ_r. simpl. rewrite (Hf (n + k)) by lia.
    rewrite IH; [lia|]. intros j ?. apply Hf. lia.
Qed.

Lemma countBelow_range (f : nat -> bool) (n m : nat) :
  n <= m -> (forall j, n <= j < m -> f j = false) -> countBelow f m = countBelow f n.
Proof.
  intros Hle Hf. replace m with (n + (m - n)) by lia. apply countBelow_skip.
  intros j ?. apply Hf. lia.
Qed.

Lemma firstAlt_Some (m : string -> option nat) (alts : list string) (len : nat) :
  firstAlt m alts = Some len -> exists alt, alt ∈ alts /\ m alt = Some len.
Proof.
  induction alts as [|a alts IH]; simpl; [done|].
  destruct (m a) as [l|] eqn:Hm.
  - intros [= <-]. exists a. split; [left | done].
  - intros (alt & ? & ?)%IH. exists alt. split; [by right | done].
Qed.

Lemma alternatives_kind (tag : blockTag) (alt : string) :
  alt ∈ alternatives tag -> alt = "if" \/ alt = "each" \/ alt = "unless".
Proof.
  unfold alternatives. rewrite !elem_of_cons, elem_of_nil.
  destruct tag; simpl; tauto.
Qed.

(** The text an opening tag pattern matched. *)
Lemma openPattern_shape (tag : blockTag) (s : string) (len : nat) :
  openPattern tag s = Some len ->
  exists alt c r, (alt = "if" \/ alt = "each" \/ alt = "unless") /\
    s = "{{#" +:+ alt +:+ String c r /\ is_space c = true /\
    len = String.length alt + 4.
Proof.
  unfold openPattern. intros (alt & Halt & Hm)%firstAlt_Some.
  apply alternatives_kind in Halt.
  destruct (stripPrefix ("{{#" +:+ alt) s) as [[|c r]|] eqn:Hs; try done.
  destruct (is_space c) eqn:Hc; [|done]. injection Hm as <-.
  apply stripPrefix_inv in Hs. exists alt, c, r.
  rewrite Hs, app_assoc_s. repeat split; try done.
  simpl. lia.
Qed.

(** The text a closing tag pattern matched. *)
Lemma closePattern_shape (tag : blockTag) (s : string) (len : nat) :
  closePattern tag s = Some len ->
  exists alt r, (alt = "if" \/ alt = "each" \/ alt = "unless") /\
    s = "{{/" +:+ alt +:+ "}}" +:+ r /\ len = String.length alt + 5.
Proof.
  unfold closePattern. intros (alt & Halt & Hm)%firstAlt_Some.
  apply alternatives_kind in Halt.
  destruct (startsWith ("{{/" +:+ alt +:+ "}}") s) eqn:Hs; [|done].
  injection Hm as <-. apply startsWith_inv in Hs.
  exists alt, (sliceFrom (String.length ("{{/" +:+ alt +:+ "}}")) s).
  split; [done|]. split.
  - rewrite Hs at 1. by rewrite !app_assoc_s.
  - rewrite !length_app_s. simpl. lia.
Qed.

Lemma space_not_brace (c : ascii) : is_space c = true -> Ascii.eqb "{" c = false.
Proof. destruct c as [[] [] [] [] [] [] [] []]; by vm_compute. Qed.

Lemma openPattern_braces (tag : blockTag) (s : string) :
  startsWith "{{" s = false -> openPattern tag s = None.
Proof.
  intros Hs. destruct (openPattern tag s) as [len|] eqn:Hm; [|done].
  apply openPattern_shape in Hm as (alt & c & r & _ & -> & _). done.
Qed.

Lemma closePattern_braces (tag : blockTag) (s : string) :
  startsWith "{{" s = false -> closePattern tag s = None.
Proof.
  intros Hs. destruct (closePattern tag s) as [len|] eqn:Hm; [|done].
  apply closePattern_shape in Hm as (alt & r & _ & -> & _). done.
Qed.

(** No tag starts strictly inside an opening tag. *)
Lemma openPattern_inside (tag : blockTag) (s : string) (len k : nat) :
  openPattern tag s = Some len -> 0 < k < len ->
  startsWith "{{" (sliceFrom k s) = false.
Proof.
  intros (alt & c & r & Halt & -> & Hc%space_not_brace & ->)%openPattern_shape Hk.
  destruct Halt as [->|[->| ->]]; simpl in Hk;
    do 11 (destruct k as [|k]; [first [lia | by simpl; rewrite ?Hc]|]); lia.
Qed.

(** No tag starts strictly inside a closing tag. *)
Lemma closePattern_inside (tag : blockTag) (s : string) (len k : nat) :
  closePattern tag s = Some len -> 0 < k < len ->
  startsWith "{{" (sliceFrom k s) = false.
Proof.
  intros (alt & r & Halt & -> & ->)%closePattern_shape Hk.
  destruct Halt as [->|[->| ->]]; simpl in Hk;
    do 12 (destruct k as [|k]; [first [lia | by simpl]|]); lia.
Qed.

(** A closing tag is not an opening tag. *)
Lemma closePattern_not_open (tag : blockTag) (s : string) (len : nat) :
  closePattern tag s = Some len -> openPattern tag s = None.
Proof.
  intros (alt & r & Halt & -> & ->)%closePattern_shape.
  by destruct tag, Halt as [->|[->| ->]].
Qed.

Lemma closePattern_length (tag : blockTag) (s : string) (len : nat) :
  closePattern tag s = Some len -> 7 <= len <= String.length s.
Proof.
  intros (alt & r & Halt & -> & ->)%closePattern_shape.
  rewrite !length_app_s. destruct Halt as [->|[->| ->]]; simpl; lia.
Qed.

Lemma openPattern_length (tag : blockTag) (s : string) (len : nat) :
  openPattern tag s = Some len -> 6 <= len <= String.length s.
Proof.
  intros (alt & c & r & Halt & -> & _ & ->)%openPattern_shape.
  rewrite !length_app_s. destruct Halt as [->|[->| ->]]; simpl; lia.
Qed.

Section Scanner.
Variables (content : string) (tag : blockTag).

Lemma no_tag_inside (f len k : nat) :
  (openPattern tag (sliceFrom f content) = Some len \/
   closePattern tag (sliceFrom f content) = Some len) ->
  0 < k < len ->
  opensAt tag content (f + k) = false /\ closesAt tag content (f + k) = false.
Proof.
  intros Hm Hk. unfold opensAt, closesAt. rewrite <- sliceFrom_sliceFrom.
  assert (startsWith "{{" (sliceFrom k (sliceFrom f content)) = false) as Hb.
  { destruct Hm; eauto using openPattern_inside, closePattern_inside. }
  by rewrite openPattern_braces, closePattern_braces.
Qed.

Lemma depthBefore_range (p f : nat) :
  p <= f ->
  (forall j, p <= j < f -> opensAt tag content j = false) ->
  (forall j, p <= j < f -> closesAt tag content j = false) ->
  depthBefore tag content f = depthBefore tag content p.
Proof.
  intros Hle Ho Hc. unfold depthBefore.
  by rewrite (countBelow_range _ p f Hle Ho), (countBelow_range _ p f Hle Hc).
Qed.

Lemma depthAfter_open (f len : nat) :
  openPattern tag (sliceFrom f content) = Some len ->
  depthAfter tag content f = (depthBefore tag content f + 1)%Z /\
  depthBefore tag content (f + len) = depthAfter tag content f.
Proof.
  intros Hm. split.
  - unfold depthAfter, depthBefore. simpl. unfold opensAt at 2, closesAt at 2.
    rewrite Hm. destruct (closePattern tag (sliceFrom f content)) as [l|] eqn:Hc.
    + apply closePattern_not_open in Hc. congruence.
    + lia.
  - pose proof (openPattern_length _ _ _ Hm). unfold depthAfter.
    apply depthBefore_range; [lia|..]; intros j Hj;
      replace j with (f + (j - f)) by lia;
      apply (no_tag_inside f len); auto with lia.
Qed.

Lemma depthAfter_close (f len : nat) :
  closePattern tag (sliceFrom f content) = Some len ->
  depthAfter tag content f = (depthBefore tag content f - 1)%Z /\
  depthBefore tag content (f + len) = depthAfter tag content f.
Proof.
  intros Hm. split.
  - unfold depthAfter, depthBefore. simpl. unfold opensAt at 2, closesAt at 2.
    rewrite Hm, (closePattern_not_open _ _ _ Hm). lia.
  - pose proof (closePattern_length _ _ _ Hm). unfold depthAfter.
    apply depthBefore_range; [lia|..]; intros j Hj;
      replace j with (f + (j - f)) by lia;
      apply (no_tag_inside f len); auto with lia.
Qed.

Lemma findBlockEnd_loop_S (n depth pos : nat) :
  findBlockEnd_loop (S n) content tag depth pos =
  if (0 <? depth) && (pos <? String.length content) then
    match search (closePattern tag) (sliceFrom pos content) with
    | None => Block content ""
    | Some (closeIdx, closeLen) =>
        let onClose :=
          if depth - 1 =? 0 then
            Block (sliceTo (pos + closeIdx) content)
                  (sliceFrom (pos + closeIdx + closeLen) content)
          else findBlockEnd_loop n content tag (depth - 1)
                 (pos + closeIdx + closeLen) in
        match search (openPattern tag) (sliceFrom pos content) with
        | Some (openIdx, openLen) =>
            if openIdx <? closeIdx
            then findBlockEnd_loop n content tag (depth + 1)
                   (pos + openIdx + openLen)
            else onClose
        | None => onClose
        end
    end
  else Block content "".
Proof. done. Qed.

Lemma search_at (m : string -> option nat) (pos idx len : nat) :
  search m (sliceFrom pos content) = Some (idx, len) ->
  m (sliceFrom (pos + idx) content) = Some len /\
  forall j, pos <= j < pos + idx -> m (sliceFrom j content) = None.
Proof.
  intros [Hi Hj]%search_Some. rewrite sliceFrom_sliceFrom in Hi. split; [done|].
  intros j ?. specialize (Hj (j - pos) ltac:(lia)).
  rewrite sliceFrom_sliceFrom in Hj. by replace (pos + (j - pos)) with j in Hj by lia.
Qed.

Lemma search_none_at (m : string -> option nat) (pos : nat) :
  search m (sliceFrom pos content) = None ->
  forall j, pos <= j -> m (sliceFrom j content) = None.
Proof.
  intros Hs j ?. rewrite search_None in Hs. specialize (Hs (j - pos)).
  rewrite sliceFrom_sliceFrom in Hs. by replace (pos + (j - pos)) with j in Hs by lia.
Qed.

(** A tag that starts after the start of another starts after its end. *)
Lemma tag_after (f len c : nat) :
  (openPattern tag (sliceFrom f content) = Some len \/
   closePattern tag (sliceFrom f content) = Some len) ->
  closesAt tag content c = true -> f < c -> f + len <= c.
Proof.
  intros Hm Hc Hlt. destruct (decide (f + len <= c)); [done|].
  destruct (no_tag_inside f len (c - f) Hm) as [_ Hx]; [lia|].
  replace (f + (c - f)) with c in Hx by lia. congruence.
Qed.

Lemma loop_found (c len : nat) :
  closePattern tag (sliceFrom c content) = Some len ->
  depthAfter tag content c = 0%Z ->
  (forall c', c' < c -> depthAfter tag content c' <> 0%Z) ->
  forall n depth pos,
    String.length content < n + pos -> pos <= c -> 1 <= depth ->
    Z.of_nat depth = depthBefore tag content pos ->
    findBlockEnd_loop n content tag depth pos
    = Block (sliceTo c content) (sliceFrom (c + len) content).
Proof.
  intros Hc Hzero Hfirst.
  pose proof (closePattern_length _ _ _ Hc) as Hlen. rewrite length_sliceFrom in Hlen.
  assert (closesAt tag content c = true) as Hcc by (unfold closesAt; by rewrite Hc).
  induction n as [|n IH]; intros depth pos Hn Hpos Hd Hdepth; [lia|].
  rewrite findBlockEnd_loop_S.
  replace (0 <? depth) with true by (symmetry; apply Nat.ltb_lt; lia).
  replace (pos <? String.length content) with true by (symmetry; apply Nat.ltb_lt; lia).
  simpl andb. cbv iota.
  destruct (search (closePattern tag) (sliceFrom pos content)) as [[ci cl]|] eqn:Hsc.
  2:{ pose proof (search_none_at _ _ Hsc c Hpos). congruence. }
  apply search_at in Hsc as [Hci Hcj].
  assert (pos + ci <= c) as Hle.
  { destruct (decide (pos + ci <= c)); [done|].
    specialize (Hcj c ltac:(lia)). congruence. }
  assert (forall j, pos <= j < pos + ci -> closesAt tag content j = false) as Hnoclose.
  { intros j Hj. unfold closesAt. by rewrite (Hcj j Hj). }
  cbv zeta.
  assert ((forall j, pos <= j < pos + ci -> opensAt tag content j = false) ->
     (if depth - 1 =? 0
      then Block (sliceTo (pos + ci) content) (sliceFrom (pos + ci + cl) content)
      else findBlockEnd_loop n content tag (depth - 1) (pos + ci + cl))
     = Block (sliceTo c content) (sliceFrom (c + len) content)) as Hclose.
  { intros Hnoopen.
    assert (depthBefore tag content (pos + ci) = Z.of_nat depth) as Hdf.
    { rewrite Hdepth. apply depthBefore_range; [lia | done | done]. }
    destruct (depthAfter_close _ _ Hci) as [Ha Hb].
    destruct (decide (pos + ci = c)) as [Heq|Hne].
    - rewrite Heq in *. assert (cl = len) as -> by congruence.
      replace (depth - 1 =? 0) with true; [done|]. symmetry. apply Nat.eqb_eq. lia.
    - assert (pos + ci < c) as Hlt by lia. specialize (Hfirst _ Hlt).
      replace (depth - 1 =? 0) with false by (symmetry; apply Nat.eqb_neq; lia).
      pose proof (closePattern_length _ _ _ Hci) as Hcl.
      apply IH; [lia | | lia | lia].
      apply tag_after; [by right | done | lia]. }
  destruct (search (openPattern tag) (sliceFrom pos content)) as [[oi ol]|] eqn:Hso.
  - apply search_at in Hso as [Hoi Hoj].
    assert (forall j, pos <= j < pos + oi -> opensAt tag content j = false) as Hnoopen.
    { intros j Hj. unfold opensAt. by rewrite (Hoj j Hj). }
    destruct (oi <? ci) eqn:Hlt.
    + apply Nat.ltb_lt in Hlt.
      destruct (depthAfter_open _ _ Hoi) as [Ha Hb].
      pose proof (openPattern_length _ _ _ Hoi).
      apply IH; [lia | | lia | ].
      * apply tag_after; [by left | done | lia].
      * rewrite Hb, Ha, (depthBefore_range pos (pos + oi)); [lia | lia | done |].
        intros j ?. apply Hnoclose. lia.
    + apply Nat.ltb_ge in Hlt. apply Hclose. intros j ?. apply Hnoopen. lia.
  - apply Hclose. intros j ?. unfold opensAt.
    by rewrite (search_none_at _ _ Hso j) by lia.
Qed.

Lemma loop_not_found :
  (forall c, depthAfter tag content c <> 0%Z) ->
  forall n depth pos,
    1 <= depth -> Z.of_nat depth = depthBefore tag content pos ->
    findBlockEnd_loop n content tag depth pos = Block content "".
Proof.
  intros Hnever. induction n as [|n IH]; intros depth pos Hd Hdepth; [done|].
  rewrite findBlockEnd_loop_S.
  destruct ((0 <? depth) && (pos <? String.length content)); [|done].
  destruct (search (closePattern tag) (sliceFrom pos content)) as [[ci cl]|] eqn:Hsc;
    [|done].
  apply search_at in Hsc as [Hci Hcj].
  assert (forall j, pos <= j < pos + ci -> closesAt tag content j = false) as Hnoclose.
  { intros j Hj. unfold closesAt. by rewrite (Hcj j Hj). }
  cbv zeta.
  assert ((forall j, pos <= j < pos + ci -> opensAt tag content j = false) ->
     (if depth - 1 =? 0
      then Block (sliceTo (pos + ci) content) (sliceFrom (pos + ci + cl) content)
      else findBlockEnd_loop n content tag (depth - 1) (pos + ci + cl))
     = Block content "") as Hclose.
  { intros Hnoopen.
    assert (depthBefore tag content (pos + ci) = Z.of_nat depth) as Hdf.
    { rewrite Hdepth. apply depthBefore_range; [lia | done | done]. }
    destruct (depthAfter_close _ _ Hci) as [Ha Hb].
    specialize (Hnever (pos + ci)).
    replace (depth - 1 =? 0) with false by (symmetry; apply Nat.eqb_neq; lia).
    apply IH; lia. }
  destruct (search (openPattern tag) (sliceFrom pos content)) as [[oi ol]|] eqn:Hso.
  - apply search_at in Hso as [Hoi Hoj].
    assert (forall j, pos <= j < pos + oi -> opensAt tag content j = false) as Hnoopen.
    { intros j Hj. unfold opensAt. by rewrite (Hoj j Hj). }
    destruct (oi <? ci) eqn:Hlt.
    + apply Nat.ltb_lt in Hlt.
      destruct (depthAfter_open _ _ Hoi) as [Ha Hb].
      apply IH; [lia|].
      rewrite Hb, Ha, (depthBefore_range pos (pos + oi)); [lia | lia | done |].
      intros j ?. apply Hnoclose. lia.
    + apply Nat.ltb_ge in Hlt. apply Hclose. intros j ?. apply Hnoopen. lia.
  - apply Hclose. intros j ?. unfold opensAt.
    by rewrite (search_none_at _ _ Hso j) by lia.
Qed.

(** The bound on the number of iterations is never what stops the loop:
    any two bounds above the length still to scan give the same block. *)
Lemma findBlockEnd_loop_bound (n m depth pos : nat) :
  String.length content < n + pos -> String.length content < m + pos ->
  findBlockEnd_loop n content tag depth pos = findBlockEnd_loop m content tag depth pos.
Proof.
  revert m depth pos; induction n as [|n IH]; intros m depth pos Hn Hm.
  - destruct m as [|m]; [done|]. rewrite findBlockEnd_loop_S.
    replace (pos <? String.length content) with false
      by (symmetry; apply Nat.ltb_ge; lia).
    by rewrite andb_false_r.
  - destruct m as [|m].
    { rewrite findBlockEnd_loop_S.
      replace (pos <? String.length content) with false
        by (symmetry; apply Nat.ltb_ge; lia).
      by rewrite andb_false_r. }
    rewrite !findBlockEnd_loop_S.
    destruct ((0 <? depth) && (pos <? String.length content)); [|done].
    destruct (search (closePattern tag) (sliceFrom pos content)) as [[ci cl]|] eqn:Hsc;
      [|done].
    apply search_at in Hsc as [Hci%closePattern_length _]. cbv zeta.
    assert ((if depth - 1 =? 0
             then Block (sliceTo (pos + ci) content) (sliceFrom (pos + ci + cl) content)
             else findBlockEnd_loop n content tag (depth - 1) (pos + ci + cl))
            = (if depth - 1 =? 0
               then Block (sliceTo (pos + ci) content) (sliceFrom (pos + ci + cl) content)
               else findBlockEnd_loop m content tag (depth - 1) (pos + ci + cl)))
      as Hclose.
    { destruct (depth - 1 =? 0); [done | apply IH; lia]. }
    destruct (search (openPattern tag) (sliceFrom pos content)) as [[oi ol]|] eqn:Hso;
      [|done].
    apply search_at in Hso as [Hoi%openPattern_length _].
    destruct (oi <? ci); [apply IH; lia | done].
Qed.

End Scanner.

(** Two prefixes of one string: one is a prefix of the other. *)
Lemma startsWith_common (p q s : string) :
  startsWith p s = true -> startsWith q s = true ->
  startsWith p q = true \/ startsWith q p = true.
Proof.
  revert q s; induction p as [|a p IH]; intros q s; [by left|].
  destruct q as [|b q]; [by right|]. destruct s as [|c s]; [done|]. simpl.
  intros [->%Ascii.eqb_eq Hp]%andb_prop [->%Ascii.eqb_eq Hq]%andb_prop.
  rewrite Ascii.eqb_refl. simpl. eauto.
Qed.

Lemma openPattern_any_tag (tag tag' : blockTag) (s : string) :
  openPattern tag s = openPattern tag' s.
Proof.
  unfold openPattern, alternatives.
  set (m := fun alt : string => _). simpl.
  destruct (m "if") eqn:Hif, (m "each") eqn:Heach, (m "unless") eqn:Hunless;
    destruct tag, tag'; simpl; rewrite ?Hif, ?Heach, ?Hunless; try done;
    exfalso; subst m; simpl in *;
    repeat match goal with
    | H : match stripPrefix ?p s with Some _ => _ | None => _ end = Some _ |- _ =>
        let E := fresh in
        destruct (stripPrefix p s) eqn:E; [apply stripPrefix_inv in E | done]
    end; subst; simpl in *; congruence.
Qed.

Lemma closePattern_any_tag (tag tag' : blockTag) (s : string) :
  closePattern tag s = closePattern tag' s.
Proof.
  unfold closePattern, alternatives.
  set (m := fun alt : string => _). simpl.
  destruct (m "if") eqn:Hif, (m "each") eqn:Heach, (m "unless") eqn:Hunless;
    destruct tag, tag'; simpl; rewrite ?Hif, ?Heach, ?Hunless; try done;
    exfalso; subst m; simpl in *;
    repeat match goal with
    | H : (if startsWith ?p s then _ else _) = Some _ |- _ =>
        let E := fresh "E" in destruct (startsWith p s) eqn:E; [clear H | done]
    end;
    repeat match goal with
    | E : startsWith ?p s = true, E' : startsWith ?q s = true |- _ =>
        let H := fresh in
        destruct (startsWith_common _ _ _ E E') as [H|H]; vm_compute in H; discriminate
    end.
Qed.

Lemma countBelow_ext (f g : nat -> bool) (n : nat) :
  (forall j, f j = g j) -> countBelow f n = countBelow g n.
Proof. intros Hfg. induction n as [|n IH]; simpl; [done|]. by rewrite IH, Hfg. Qed.

Lemma depthBefore_any_tag (tag tag' : blockTag) (content : string) (i : nat) :
  depthBefore tag content i = depthBefore tag' content i.
Proof.
  unfold depthBefore.
  rewrite (countBelow_ext (opensAt tag content) (opensAt tag' content)),
          (countBelow_ext (closesAt tag content) (closesAt tag' content)); [done|..];
    intros j; unfold opensAt, closesAt;
    by rewrite ?(openPattern_any_tag tag tag'), ?(closePattern_any_tag tag tag').
Qed.

Lemma depthAfter_beyond (tag : blockTag) (content : string) (c : nat) :
  String.length content <= c ->
  depthAfter tag content c = depthBefore tag content (String.length content).
Proof.
  intros Hc. unfold depthAfter. apply depthBefore_range; [lia|..];
    intros j Hj; unfold opensAt, closesAt; by rewrite sliceFrom_ge by lia.
Qed.

(** C3.  When the content holds the closing tag that brings the nesting
    depth to zero, [findBlockEnd] returns as body the text before that tag
    and as rest the text after it; the depth counts the opening and closing
    tags of all three block kinds, whatever the kind searched for. *)
Theorem findBlockEnd_matching_close (content : string) (tag : blockTag) (c len : nat) :
  closePattern tag (sliceFrom c content) = Some len ->
  depthAfter tag content c = 0%Z ->
  (forall c', c' < c -> depthAfter tag content c' <> 0%Z) ->
  findBlockEnd content tag = Block (sliceTo c content) (sliceFrom (c + len) content) /\
  content = sliceTo c content +:+ sliceTo len (sliceFrom c content)
            +:+ sliceFrom (c + len) content /\
  (forall tag' i, depthBefore tag' content i = depthBefore tag content i).
Proof.
  intros Hc Hzero Hfirst. split; [|split].
  - unfold findBlockEnd. apply loop_found; try done; lia.
  - rewrite <- sliceFrom_sliceFrom, sliceTo_sliceFrom. by rewrite sliceTo_sliceFrom.
  - intros. apply depthBefore_any_tag.
Qed.

(** An each block with a nested if block. *)
Lemma findBlockEnd_matching_close_witness :
  findBlockEnd "a{{#if x}}b{{/if}}c{{/each}}d" TagEach
  = Block "a{{#if x}}b{{/if}}c" "d".
Proof.
  apply (findBlockEnd_matching_close "a{{#if x}}b{{/if}}c{{/each}}d" TagEach 19 9).
  - reflexivity.
  - reflexivity.
  - intros c' Hc'. do 19 (destruct c' as [|c']; [by vm_compute|]). lia.
Defined.

Lemma findBlockEnd_never_closed (content : string) (tag : blockTag) :
  (forall c, c < String.length content -> depthAfter tag content c <> 0%Z) ->
  findBlockEnd content tag = Block content "".
Proof.
  intros Hnever. unfold findBlockEnd. apply loop_not_found; [|lia|done].
  intros c. destruct (decide (c < String.length content)); [by apply Hnever|].
  rewrite depthAfter_beyond by lia.
  destruct (String.length content) as [|m] eqn:Hm; [done|].
  apply (Hnever m). lia.
Qed.

(** ** The renderer at a tag *)

(** The loop body when the remaining text begins with the tag marker. *)
Lemma loop_body_marker rec context partials (s : string) :
  loop_body rec context partials (State "" [] ("{{" +:+ s)) =
  let remaining := "{{" +:+ s in
  let st := State "" [] remaining in
  match match_partial remaining with
  | Some (name, len) =>
      let partial := lookupPartial partials name in
      bind (if falsy partial then Done ("", [warning name])
            else renderEntry (fun text => rec text context partials) partial)
        (fun r => emit st "" r (sliceFrom len remaining))
  | None =>
  match match_block "each" remaining with
  | Some (path, len) =>
      let b := findBlockEnd (sliceFrom len remaining) TagEach in
      bind (resolve context path) (fun arr =>
      bind (match isArray arr with
            | Some items =>
                bind (mapIndexed (fun item index =>
                        rec (body b) (itemContext context item index (length items))
                          partials)
                      0 items) (fun rs => Done (joined rs))
            | None => Done nothing
            end) (fun r => emit st "" r (rest b)))
  | None =>
  match match_block "if" remaining with
  | Some (path, len) =>
      let b := findBlockEnd (sliceFrom len remaining) TagIf in
      bind (resolve context path) (fun val =>
      let '(ifBody, elseBody) := splitElse (body b) in
      bind (rec (if truthy val then ifBody else elseBody) context partials)
        (fun r => emit st "" r (rest b)))
  | None =>
  match match_block "unless" remaining with
  | Some (path, len) =>
      let b := findBlockEnd (sliceFrom len remaining) TagUnless in
      bind (resolve context path) (fun val =>
      bind (if negb (truthy val) then rec (body b) context partials else Done nothing)
        (fun r => emit st "" r (rest b)))
  | None =>
  match match_var remaining with
  | Some (path, len) =>
      bind (resolve context path) (fun val =>
      bind (shown val) (fun text =>
      emit st "" (text, []) (sliceFrom len remaining)))
  | None => emit st "" ("{{", []) (sliceFrom 2 remaining)
  end end end end end.
Proof. reflexivity. Qed.

Lemma emit_continue (r : rendered) (rem rem' : string) fuel context partials :
  bind (emit (State "" [] rem) "" r rem')
    (fun s => match s with
              | Break r' => Done r'
              | Continue st =>
                  bind (render fuel (remaining st) context partials)
                    (fun k => Done (after (output st) (warnings st) k))
              end)
  = bind (render fuel rem' context partials) (fun k => Done (after r.1 r.2 k)).
Proof. done. Qed.

(** An if block at the head of the template. *)
Lemma render_if fuel context partials (ws path content : string) :
  run is_space ws = true -> run is_path_char path = true ->
  render (S fuel) ("{{#if" +:+ ws +:+ path +:+ "}}" +:+ content) context partials =
  let b := findBlockEnd content TagIf in
  bind (resolve context path) (fun val =>
  bind (render fuel (if truthy val then (splitElse (body b)).1
                     else (splitElse (body b)).2) context partials) (fun r =>
  bind (render fuel (rest b) context partials) (fun k =>
  Done (after r.1 r.2 k)))).
Proof.
  intros Hws Hpath. rewrite render_unfold.
  change (0 <? String.length _) with true. cbv iota.
  change ("{{#if" +:+ ws +:+ path +:+ "}}" +:+ content)
    with ("{{" +:+ "#if" +:+ ws +:+ path +:+ "}}" +:+ content).
  rewrite loop_body_marker. cbv zeta.
  change ("{{" +:+ "#if" +:+ ws +:+ path +:+ "}}" +:+ content)
    with ("{{#" +:+ "if" +:+ ws +:+ path +:+ "}}" +:+ content).
  rewrite (match_block_tag "if" ws path content Hws Hpath).
  change (match_partial _) with (@None (string * nat)).
  change (match_block "each" _) with (@None (string * nat)). cbv iota.
  rewrite <- !app_assoc_s, sliceFrom_app, !bind_assoc.
  apply bind_ext. intros val. destruct (splitElse _) as [ifBody elseBody].
  rewrite bind_assoc. apply bind_ext. intros r. apply emit_continue.
Qed.

(** An each block at the head of the template. *)
Lemma render_each fuel context partials (ws path content : string) :
  run is_space ws = true -> run is_path_char path = true ->
  render (S fuel) ("{{#each" +:+ ws +:+ path +:+ "}}" +:+ content) context partials =
  let b := findBlockEnd content TagEach in
  bind (resolve context path) (fun arr =>
  bind (match isArray arr with
        | Some items =>
            bind (mapIndexed (fun item index =>
                    render fuel (body b)
                      (itemContext context item index (length items)) partials)
                  0 items) (fun rs => Done (joined rs))
        | None => Done nothing
        end) (fun r =>
  bind (render fuel (rest b) context partials) (fun k =>
  Done (after r.1 r.2 k)))).
Proof.
  intros Hws Hpath. rewrite render_unfold.
  change (0 <? String.length _) with true. cbv iota.
  change ("{{#each" +:+ ws +:+ path +:+ "}}" +:+ content)
    with ("{{" +:+ "#each" +:+ ws +:+ path +:+ "}}" +:+ content).
  rewrite loop_body_marker. cbv zeta.
  change ("{{" +:+ "#each" +:+ ws +:+ path +:+ "}}" +:+ content)
    with ("{{#" +:+ "each" +:+ ws +:+ path +:+ "}}" +:+ content).
  rewrite (match_block_tag "each" ws path content Hws Hpath).
  change (match_partial _) with (@None (string * nat)). cbv iota.
  rewrite <- !app_assoc_s, sliceFrom_app, !bind_assoc.
  apply bind_ext. intros val.
  rewrite bind_assoc. apply bind_ext. intros r. apply emit_continue.
Qed.

(** An unless block at the head of the template. *)
Lemma render_unless fuel context partials (ws path content : string) :
  run is_space ws = true -> run is_path_char path = true ->
  render (S fuel) ("{{#unless" +:+ ws +:+ path +:+ "}}" +:+ content) context partials =
  let b := findBlockEnd content TagUnless in
  bind (resolve context path) (fun val =>
  bind (if negb (truthy val) then render fuel (body b) context partials
        else Done nothing) (fun r =>
  bind (render fuel (rest b) context partials) (fun k =>
  Done (after r.1 r.2 k)))).
Proof.
  intros Hws Hpath. rewrite render_unfold.
  change (0 <? String.length _) with true. cbv iota.
  change ("{{#unless" +:+ ws +:+ path +:+ "}}" +:+ content)
    with ("{{" +:+ "#unless" +:+ ws +:+ path +:+ "}}" +:+ content).
  rewrite loop_body_marker. cbv zeta.
  change ("{{" +:+ "#unless" +:+ ws +:+ path +:+ "}}" +:+ content)
    with ("{{#" +:+ "unless" +:+ ws +:+ path +:+ "}}" +:+ content).
  rewrite (match_block_tag "unless" ws path content Hws Hpath).
  change (match_partial _) with (@None (string * nat)).
  change (match_block "each" _) with (@None (string * nat)).
  change (match_block "if" _) with (@None (string * nat)). cbv iota.
  rewrite <- !app_assoc_s, sliceFrom_app, !bind_assoc.
  apply bind_ext. intros val.
  rewrite bind_assoc. apply bind_ext. intros r. apply emit_continue.
Qed.

Lemma class_disjoint_space_word (c : ascii) : is_space c = true -> is_word c = false.
Proof. destruct c as [[] [] [] [] [] [] [] []]; by vm_compute. Qed.

Lemma stops_app (p : ascii -> bool) (a b : string) :
  stops p b = true -> (a = "" \/ stops p a = true) -> stops p (a +:+ b) = true.
Proof. intros Hb [->|Ha]; [done|]. destruct a; [done|]. done. Qed.

Lemma all_chars_stops (p q : ascii -> bool) (a : string) :
  (forall c, q c = true -> p c = false) -> all_chars q a = true ->
  a = "" \/ stops p a = true.
Proof.
  intros Hpq Ha. destruct a as [|c a]; [by left|]. right. simpl in *.
  apply andb_prop in Ha as [Hc _]. by rewrite (Hpq c Hc).
Qed.

(** A partial reference written out is matched, with its name and length. *)
Lemma match_partial_tag (ws1 name ws2 content : string) :
  all_chars is_space ws1 = true -> run is_word name = true ->
  all_chars is_space ws2 = true ->
  match_partial ("{{>" +:+ ws1 +:+ name +:+ ws2 +:+ "}}" +:+ content)
  = Some (name, String.length ("{{>" +:+ ws1 +:+ name +:+ ws2 +:+ "}}")).
Proof.
  intros Hws1 Hname Hws2. unfold match_partial. rewrite stripPrefix_app.
  rewrite (span_app is_space ws1); [|done|].
  2:{ apply stops_run with is_word; [apply class_disjoint_word_space | done]. }
  rewrite (span_app is_word name); [|by apply run_all|].
  2:{ apply stops_app; [by apply stops_closing|].
      eapply all_chars_stops; [apply class_disjoint_space_word | done]. }
  rewrite (span_app is_space ws2); [|done | by apply stops_closing].
  rewrite (run_nonempty _ _ Hname), startsWith_app. do 2 f_equal.
  rewrite !length_app_s. simpl. lia.
Qed.

(** A partial reference at the head of the template. *)
Lemma render_partial fuel context partials (ws1 name ws2 content : string) :
  all_chars is_space ws1 = true -> run is_word name = true ->
  all_chars is_space ws2 = true ->
  render (S fuel) ("{{>" +:+ ws1 +:+ name +:+ ws2 +:+ "}}" +:+ content) context partials =
  let partial := lookupPartial partials name in
  bind (if falsy partial then Done ("", [warning name])
        else renderEntry (fun text => render fuel text context partials) partial)
    (fun r =>
  bind (render fuel content context partials) (fun k =>
  Done (after r.1 r.2 k))).
Proof.
  intros Hws1 Hname Hws2. rewrite render_unfold.
  change (0 <? String.length _) with true. cbv iota.
  change ("{{>" +:+ ws1 +:+ name +:+ ws2 +:+ "}}" +:+ content)
    with ("{{" +:+ ">" +:+ ws1 +:+ name +:+ ws2 +:+ "}}" +:+ content).
  rewrite loop_body_marker. cbv zeta.
  change ("{{" +:+ ">" +:+ ws1 +:+ name +:+ ws2 +:+ "}}" +:+ content)
    with ("{{>" +:+ ws1 +:+ name +:+ ws2 +:+ "}}" +:+ content).
  rewrite (match_partial_tag ws1 name ws2 content Hws1 Hname Hws2).
  rewrite <- !app_assoc_s, sliceFrom_app, !bind_assoc.
  apply bind_ext. intros r. apply emit_continue.
Qed.

Lemma render_loop_render fuel context partials out log template r :
  render fuel template context partials = Done r ->
  render_loop fuel context partials (State out log template) = Done (after out log r).
Proof. intros Hr. by rewrite render_loop_shift, Hr. Qed.

Lemma after_nothing (r : rendered) : after r.1 r.2 nothing = r.
Proof. destruct r as [o l]. unfold after. simpl. by rewrite app_empty_r, app_nil_r. Qed.

Lemma render_literal fuel (s : string) context partials :
  indexOf "{{" s = None -> render (S fuel) s context partials = Done (s, []).
Proof.
  intros Hs. rewrite render_unfold. destruct s as [|c s]; [done|].
  change (0 <? String.length _) with true. cbv iota.
  unfold loop_body. simpl remaining. by rewrite Hs.
Qed.

(** ** If blocks and truthiness *)

(** C1, amended.  [{{#if p}}A{{/if}}] renders A exactly when the value the
    path resolves to is truthy under the coercion of JavaScript: 0, the
    empty string, null, undefined and false are falsy; 1, a non-empty
    string, true, every sequence, the empty one included, and every
    mapping are truthy. *)
Theorem render_if_truthiness (fuel : nat) (context : gmap string value)
    (partials : gmap string string) (path : string) (v : value) :
  2 <= fuel ->
  run is_path_char path = true ->
  resolvePath (VObj context) path = Done v ->
  render fuel ("{{#if " +:+ path +:+ "}}A{{/if}}") context partials
    = Done (if truthy v then "A" else "", []) /\
  truthy (VNum 0) = false /\ truthy (VStr "") = false /\ truthy VNull = false /\
  truthy VUndefined = false /\ truthy (VBool false) = false /\
  truthy (VNum 1) = true /\ truthy (VBool true) = true /\
  (forall s, s <> "" -> truthy (VStr s) = true) /\
  (forall items, truthy (VArr items) = true) /\
  (forall props, truthy (VObj props) = true).
Proof.
  intros Hfuel Hpath Hv. split.
  - destruct fuel as [|[|fuel]]; [lia | lia |].
    change ("{{#if " +:+ path +:+ "}}A{{/if}}")
      with ("{{#if" +:+ " " +:+ path +:+ "}}" +:+ "A{{/if}}").
    rewrite render_if by done. unfold resolve. rewrite Hv.
    change (findBlockEnd "A{{/if}}" TagIf) with (Block "A" "").
    change (splitElse (body (Block "A" ""))) with ("A", "").
    cbn [bind body rest fst snd]. rewrite (render_empty (S fuel)).
    destruct (truthy v); [by rewrite render_literal | by rewrite render_empty].
  - repeat split; try done.
    intros s Hs. simpl. apply negb_true_iff. by apply String.eqb_neq.
Qed.

(** A non-empty string as condition. *)
Lemma render_if_truthiness_witness :
  render 2 "{{#if a.b}}A{{/if}}"
    (<["a" := VObj (<["b" := VStr "x"]> ∅)]> ∅) ∅ = Done ("A", []).
Proof.
  apply (render_if_truthiness 2 (<["a" := VObj (<["b" := VStr "x"]> ∅)]> ∅) ∅
           "a.b" (VStr "x")); [lia | reflexivity | reflexivity].
Defined.

(** C1, counterexample: an empty sequence is truthy, the block renders A. *)
Lemma render_if_empty_sequence :
  resolvePath (VObj (<["v" := VArr []]> ∅)) "v" = Done (VArr []) /\
  render 2 "{{#if v}}A{{/if}}" (<["v" := VArr []]> ∅) ∅ = Done ("A", []) /\
  render 2 "{{#if v}}A{{/if}}" (<["v" := VArr []]> ∅) ∅ <> Done ("", []).
Proof. by vm_compute. Qed.

(** ** Each blocks *)

Lemma join_empty_cons (s : string) (l : list string) : join "" (s :: l) = s +:+ join "" l.
Proof. destruct l; simpl; [by rewrite app_empty_r | done]. Qed.

Lemma mapIndexed_Done (f : value -> nat -> outcome rendered) (items : list value)
    (rs : list rendered) (index : nat) :
  length rs = length items ->
  (forall i item, items !! i = Some item ->
     exists r, rs !! i = Some r /\ f item (index + i) = Done r) ->
  mapIndexed f index items = Done rs.
Proof.
  revert rs index; induction items as [|item items IH]; intros rs index Hlen Hrs.
  - by destruct rs.
  - destruct rs as [|r rs]; [done|]. simpl.
    destruct (Hrs 0 item eq_refl) as (r' & [= <-] & Hr).
    rewrite Nat.add_0_r in Hr. rewrite Hr. simpl.
    rewrite (IH rs (S index)); [done | by injection Hlen |].
    intros i item' Hi. destruct (Hrs (S i) item' Hi) as (r'' & Hr'' & Hf).
    exists r''. split; [done|]. by replace (S index + i) with (index + S i) by lia.
Qed.

(** C5.  An each block whose path resolves to a sequence renders, in element
    order, its body once per element under the context extended with this,
    @index, @first and @last, every other binding being that of the
    enclosing context; a path that resolves to anything else makes the
    block contribute nothing. *)
Theorem render_each_block (fuel : nat) (context : gmap string value)
    (partials : gmap string string) (out : string) (log : list string)
    (ws path content : string) (v : value) :
  run is_space ws = true ->
  run is_path_char path = true ->
  resolvePath (VObj context) path = Done v ->
  let b := findBlockEnd content TagEach in
  let template := "{{#each" +:+ ws +:+ path +:+ "}}" +:+ content in
  (forall items rs k,
     v = VArr items ->
     length rs = length items ->
     (forall i item, items !! i = Some item ->
        exists r, rs !! i = Some r /\
          render fuel (body b) (itemContext context item i (length items)) partials
          = Done r) ->
     render fuel (rest b) context partials = Done k ->
     render_loop (S fuel) context partials (State out log template)
     = Done (after out log (after (join "" (map fst rs)) (concat (map snd rs)) k))) /\
  (forall k,
     isArray v = None ->
     render fuel (rest b) context partials = Done k ->
     render_loop (S fuel) context partials (State out log template)
     = Done (after out log k)) /\
  (forall item index len,
     itemContext context item index len !! "this" = Some item /\
     itemContext context item index len !! "@index" = Some (VNum (Z.of_nat index)) /\
     itemContext context item index len !! "@first" = Some (VBool (index =? 0)) /\
     itemContext context item index len !! "@last"
       = Some (VBool (Z.of_nat index =? Z.of_nat len - 1)%Z) /\
     forall key, key ∉ ["this"; "@index"; "@first"; "@last"] ->
       itemContext context item index len !! key = context !! key).
Proof.
  intros Hws Hpath Hv b template. split; [|split].
  - intros items rs k -> Hlen Hrs Hk. apply render_loop_render.
    unfold template. rewrite render_each by done. fold b.
    unfold resolve. rewrite Hv. cbn [bind isArray].
    rewrite (mapIndexed_Done _ items rs 0 Hlen); [|done].
    cbn [bind]. by rewrite Hk.
  - intros k Harr Hk. apply render_loop_render.
    unfold template. rewrite render_each by done. fold b.
    unfold resolve. rewrite Hv. cbn [bind]. rewrite Harr. cbn [bind].
    rewrite Hk. by destruct k.
  - intros item index len. unfold itemContext. repeat split.
    + rewrite 3!lookup_insert_ne by done. apply lookup_insert_eq.
    + rewrite 2!lookup_insert_ne by done. apply lookup_insert_eq.
    + rewrite lookup_insert_ne by done. apply lookup_insert_eq.
    + apply lookup_insert_eq.
    + intros key Hkey. rewrite !elem_of_cons, elem_of_nil in Hkey.
      rewrite !lookup_insert_ne; [done|..]; naive_solver.
Qed.

(** Two elements, between literal text. *)
Lemma render_each_block_witness :
  render_loop 6 (<["xs" := VArr [VStr "a"; VStr "b"]]> ∅) ∅
    (State "<" [] "{{#each xs}}{{@index}}{{this}};{{/each}}>")
  = Done ("<0a;1b;>", []).
Proof.
  pose proof (render_each_block 5 (<["xs" := VArr [VStr "a"; VStr "b"]]> ∅) ∅
    "<" [] " " "xs" "{{@index}}{{this}};{{/each}}>" (VArr [VStr "a"; VStr "b"])
    eq_refl eq_refl eq_refl) as [H _].
  apply (H [VStr "a"; VStr "b"] [("0a;", []); ("1b;", [])] (">", []));
    [reflexivity | reflexivity | | reflexivity].
  intros [|[|i]] item Hi; try discriminate; injection Hi as <-; eexists;
    split; reflexivity.
Defined.

(** ** Partial references *)

(** C7, at the failing input.  The name constructor is not a key of the
    registry, yet the read of the registry yields the built-in function
    inherited from Object.prototype; it is truthy, and rendering it raises
    a TypeError instead of writing a warning and going on.  A name that
    Object.prototype does not know gets the warning. *)
Theorem render_partial_inherited_name :
  (∅ : gmap string string) !! "constructor" = None /\
  lookupPartial ∅ "constructor" = Inherited (BFunction "Object" 1) /\
  render 2 "<{{> constructor}}>" ∅ ∅ = Throws /\
  render 3 "<{{> nosuch}}>" ∅ ∅ = Done ("<>", [warning "nosuch"]).
Proof. by vm_compute. Qed.

(** A partial reference whose name is a key of the registry, or is unknown
    to the registry and to Object.prototype. *)
Lemma render_partial_reference fuel context partials out log ws1 name ws2 content :
  all_chars is_space ws1 = true -> run is_word name = true ->
  all_chars is_space ws2 = true ->
  let template := "{{>" +:+ ws1 +:+ name +:+ ws2 +:+ "}}" +:+ content in
  (partials !! name = None -> objectPrototype name = None ->
   render_loop (S fuel) context partials (State out log template)
   = render_loop fuel context partials (State out (log ++ [warning name]) content)) /\
  (forall text r k,
     partials !! name = Some text -> text <> "" ->
     render fuel text context partials = Done r ->
     render fuel content context partials = Done k ->
     render_loop (S fuel) context partials (State out log template)
     = Done (after out log (after r.1 r.2 k))).
Proof.
  intros Hws1 Hname Hws2 template. split.
  - intros Hnone Hproto. rewrite !render_loop_shift. unfold template.
    rewrite render_partial by done. unfold lookupPartial. rewrite Hnone, Hproto.
    cbn [falsy bind fst snd]. rewrite bind_assoc. apply bind_ext. intros k.
    cbn [bind]. by rewrite after_after, app_empty_r.
  - intros text r k Htext Hne%String.eqb_neq Hr Hk. apply render_loop_render.
    unfold template. rewrite render_partial by done. unfold lookupPartial.
    rewrite Htext. cbn [falsy renderEntry]. rewrite Hne, Hr. cbn [bind].
    by rewrite Hk.
Qed.

(** ** Paths with an at sign *)

Lemma match_block_at (kind ws a b : string) :
  run is_space ws = true -> all_chars is_path_char a = true ->
  match_block kind ("{{#" +:+ kind +:+ ws +:+ a +:+ "@" +:+ b) = None.
Proof.
  intros Hws Ha. unfold match_block.
  rewrite <- (app_assoc_s "{{#" kind), stripPrefix_app.
  rewrite (span_app is_space ws); [|by apply run_all|].
  2:{ apply stops_app; [done|].
      eapply all_chars_stops; [apply class_disjoint_path_space | done]. }
  rewrite (span_app is_path_char a); [|done | done].
  by destruct (String.eqb ws "" || String.eqb a "").
Qed.

(** C9.  The block patterns take paths of word characters and dots only:
    a block tag whose path reaches an at sign is matched by no pattern, so
    the two characters of the marker are put out after what was put out
    before, and the rest of the tag is rendered as text that follows them;
    the variable pattern does take the at sign. *)
Theorem at_sign_not_in_block_paths (fuel : nat) (context : gmap string value)
    (partials : gmap string string) (out : string) (log : list string)
    (kind ws a b : string) :
  kind = "each" \/ kind = "if" \/ kind = "unless" ->
  run is_space ws = true ->
  all_chars is_path_char a = true ->
  let tail := "#" +:+ kind +:+ ws +:+ a +:+ "@" +:+ b in
  match_block kind ("{{" +:+ tail) = None /\
  render_loop (S fuel) context partials (State out log ("{{" +:+ tail))
  = (let* k := render fuel tail context partials in
     Done (after (out +:+ "{{") log k)) /\
  (forall path content,
     run is_var_char path = true ->
     match_var ("{{" +:+ path +:+ "}}" +:+ content)
     = Some (path, String.length ("{{" +:+ path +:+ "}}"))) /\
  is_var_char "@" = true /\ is_path_char "@" = false.
Proof.
  intros Hkind Hws Ha tail. split; [by apply match_block_at|]. split; [|split].
  - rewrite render_loop_shift, render_unfold.
    change (0 <? String.length _) with true. cbv iota.
    rewrite loop_body_marker. cbv zeta.
    pose proof (match_block_at kind ws a b Hws Ha) as Hm.
    change ("{{#" +:+ kind +:+ ws +:+ a +:+ "@" +:+ b) with ("{{" +:+ tail) in Hm.
    assert (match_partial ("{{" +:+ tail) = None) as -> by done.
    assert (match_var ("{{" +:+ tail) = None) as -> by done.
    assert (match_block "each" ("{{" +:+ tail) = None /\
            match_block "if" ("{{" +:+ tail) = None /\
            match_block "unless" ("{{" +:+ tail) = None) as (-> & -> & ->).
    { destruct Hkind as [->|[->| ->]]; by rewrite Hm. }
    unfold emit. cbn [bind fst snd remaining output warnings].
    change (sliceFrom 2 ("{{" +:+ tail)) with tail.
    rewrite bind_assoc. apply bind_ext. intros k. cbn [bind].
    by rewrite after_after, app_nil_r.
  - intros path content Hpath. unfold match_var.
    change ("{{" +:+ path +:+ "}}" +:+ content)
      with ("{{" +:+ (path +:+ "}}" +:+ content)).
    rewrite stripPrefix_app.
    rewrite (span_app is_var_char path); [|by apply run_all | done].
    rewrite (run_nonempty _ _ Hpath), startsWith_app. do 2 f_equal.
    rewrite !length_app_s. simpl. lia.
  - done.
Qed.

(** An if block on @first, in a context that binds @first: the tag and the
    text after it are put out as they are. *)
Lemma at_sign_not_in_block_paths_witness :
  render_loop 5 (<["@first" := VBool true]> ∅) ∅
    (State "<" [] ("{{" +:+ "#" +:+ "if" +:+ " " +:+ "" +:+ "@" +:+ "first}}X{{/if}}"))
  = Done ("<{{#if @first}}X{{/if}}", []).
Proof.
  destruct (at_sign_not_in_block_paths 4 (<["@first" := VBool true]> ∅) ∅ "<" []
              "if" " " "" "first}}X{{/if}}") as (_ & H & _);
    [right; left; reflexivity | reflexivity | reflexivity |].
  etransitivity; [exact H | reflexivity].
Defined.

(** ** The else split *)

Lemma sliceFrom_succ (i : nat) (s : string) (c : ascii) (s' : string) :
  sliceFrom i s = String c s' -> sliceFrom (S i) s = s'.
Proof.
  intros Hs. replace (S i) with (i + 1) by lia.
  by rewrite <- sliceFrom_sliceFrom, Hs.
Qed.

Lemma sliceFrom_empty_ge (i k : nat) (s : string) :
  sliceFrom i s = "" -> i <= k -> sliceFrom k s = "".
Proof.
  intros Hs Hk. replace k with (i + (k - i)) by lia.
  rewrite <- sliceFrom_sliceFrom, Hs. by destruct (k - i).
Qed.

Lemma elseDepth_step (body : string) (i : nat) :
  elseDepth body i
  = ((if markerAt body i then elseDepthBefore body i + 1 else elseDepthBefore body i)
     - (if closeTagAt body i then 1 else 0))%Z.
Proof.
  unfold elseDepth, elseDepthBefore. simpl.
  destruct (markerAt body i), (closeTagAt body i); lia.
Qed.

Lemma elseScan_spec (body : string) (suffix : string) (i : nat) :
  suffix = sliceFrom i body ->
  match elseScan suffix i (elseDepthBefore body i) with
  | Some j =>
      i <= j /\ elseDepth body j = 0%Z /\ elseAt body j = true /\
      forall k, i <= k < j -> ~ (elseDepth body k = 0%Z /\ elseAt body k = true)
  | None =>
      forall k, i <= k -> ~ (elseDepth body k = 0%Z /\ elseAt body k = true)
  end.
Proof.
  revert i; induction suffix as [|c suffix IH]; intros i Hs.
  - simpl. intros k Hk [_ He]. unfold elseAt in He.
    by rewrite (sliceFrom_empty_ge i k body) in He.
  - cbn [elseScan].
    assert ((if closeTag (String c suffix)
             then ((if startsWith "{{#" (String c suffix)
                    then elseDepthBefore body i + 1 else elseDepthBefore body i) - 1)%Z
             else (if startsWith "{{#" (String c suffix)
                   then (elseDepthBefore body i + 1)%Z else elseDepthBefore body i))
            = elseDepth body i) as ->.
    { rewrite elseDepth_step. unfold markerAt, closeTagAt. rewrite <- Hs.
      destruct (closeTag _), (startsWith "{{#" _); lia. }
    destruct ((elseDepth body i =? 0)%Z && startsWith "{{else}}" (String c suffix))
      eqn:Hhit.
    + apply andb_prop in Hhit as [Hd%Z.eqb_eq He]. rewrite Hs in He.
      repeat split; try done. intros k ?. lia.
    + specialize (IH (S i) (eq_sym (sliceFrom_succ _ _ _ _ (eq_sym Hs)))).
      change (elseDepthBefore body (S i)) with (elseDepth body i) in IH.
      assert (~ (elseDepth body i = 0%Z /\ elseAt body i = true)) as Hnot.
      { intros [Hd He]. unfold elseAt in He. rewrite <- Hs in He.
        apply Z.eqb_eq in Hd. by rewrite Hd, He in Hhit. }
      destruct (elseScan suffix (S i) (elseDepth body i)) as [j|].
      * destruct IH as (? & ? & ? & Hk). repeat split; try done; [lia|].
        intros k ?. destruct (decide (k = i)) as [->|]; [done | apply Hk; lia].
      * intros k ?. destruct (decide (k = i)) as [->|]; [done | apply IH; lia].
Qed.

(** The if body ends at the first else marker at which the counter of the
    loop is zero: the counter goes up at every [{{#], whatever follows it,
    and down at every closing tag of a block. *)
Lemma splitElse_first_else (body : string) (j : nat) :
  elseAt body j = true -> elseDepth body j = 0%Z ->
  (forall k, k < j -> ~ (elseDepth body k = 0%Z /\ elseAt body k = true)) ->
  splitElse body = (sliceTo j body, sliceFrom (j + String.length "{{else}}") body).
Proof.
  intros He Hd Hfirst. unfold splitElse.
  pose proof (elseScan_spec body body 0 eq_refl) as Hspec.
  change (elseDepthBefore body 0) with 0%Z in Hspec.
  destruct (elseScan body 0 0) as [j'|].
  - destruct Hspec as (_ & Hd' & He' & Hk).
    assert (j' = j) as ->; [|done].
    destruct (Nat.lt_trichotomy j' j) as [?|[?|?]]; [|done|].
    + by destruct (Hfirst j').
    + destruct (Hk j); [lia | done].
  - destruct (Hspec j); [lia | done].
Qed.

Lemma splitElse_no_else (body : string) :
  (forall k, ~ (elseDepth body k = 0%Z /\ elseAt body k = true)) ->
  splitElse body = (body, "").
Proof.
  intros Hnone. unfold splitElse.
  pose proof (elseScan_spec body body 0 eq_refl) as Hspec.
  change (elseDepthBefore body 0) with 0%Z in Hspec.
  destruct (elseScan body 0 0) as [j|]; [|done].
  destruct Hspec as (_ & Hd & He & _). by destruct (Hnone j).
Qed.

Lemma closeTag_closePattern (tag : blockTag) (s : string) :
  closeTag s = match closePattern tag s with Some _ => true | None => false end.
Proof.
  unfold closeTag, closePattern, alternatives.
  destruct tag; simpl;
    destruct (startsWith "{{/if}}" s), (startsWith "{{/each}}" s),
      (startsWith "{{/unless}}" s); done.
Qed.

Lemma opensAt_markerAt (tag : blockTag) (body : string) (j : nat) :
  opensAt tag body j = true -> markerAt body j = true.
Proof.
  unfold opensAt, markerAt.
  destruct (openPattern tag (sliceFrom j body)) as [len|] eqn:Hm; [|done].
  apply openPattern_shape in Hm as (alt & c & r & _ & -> & _). done.
Qed.

(** When every [{{#] of the body begins an opening tag of a block, the
    counter of the else split is the nesting depth that the scanner counts,
    and the body is split at its first else marker outside any nested
    block. *)
Lemma splitElse_top_level (body : string) (j : nat) :
  (forall k, markerAt body k = true -> opensAt TagIf body k = true) ->
  elseAt body j = true ->
  depthAfter TagIf body j = 1%Z ->
  (forall k, k < j -> ~ (depthAfter TagIf body k = 1%Z /\ elseAt body k = true)) ->
  splitElse body = (sliceTo j body, sliceFrom (j + String.length "{{else}}") body).
Proof.
  intros Hwf He Hd Hfirst.
  assert (forall i, elseDepthBefore body i = (depthBefore TagIf body i - 1)%Z) as Hdepth.
  { intros i. unfold elseDepthBefore, depthBefore.
    rewrite (countBelow_ext (markerAt body) (opensAt TagIf body)),
            (countBelow_ext (closeTagAt body) (closesAt TagIf body)); [lia|..].
    - intros k. unfold closeTagAt, closesAt. apply closeTag_closePattern.
    - intros k. destruct (markerAt body k) eqn:Hk; [by rewrite Hwf|].
      destruct (opensAt TagIf body k) eqn:Ho; [|done].
      apply opensAt_markerAt in Ho. congruence. }
  apply splitElse_first_else; [done|..].
  - unfold elseDepth. rewrite Hdepth. unfold depthAfter in Hd. lia.
  - intros k Hk [Hz Hek]. apply (Hfirst k Hk). split; [|done].
    unfold elseDepth in Hz. rewrite Hdepth in Hz. unfold depthAfter. lia.
Qed.

(** C2, at the failing input.  The body has no opening tag of a block
    before its else marker, which stands at the nesting depth of the body
    itself; the loop nevertheless counts the marker of [{{#x}}] as an
    opening tag, never sees depth zero again, and leaves the body unsplit:
    with a false condition the block renders nothing instead of N. *)
Theorem splitElse_stray_marker :
  depthBefore TagIf "{{#x}}Y{{else}}N" 7 = 1%Z /\
  startsWith "{{else}}" (sliceFrom 7 "{{#x}}Y{{else}}N") = true /\
  splitElse "{{#x}}Y{{else}}N" = ("{{#x}}Y{{else}}N", "") /\
  findBlockEnd "{{#x}}Y{{else}}N{{/if}}" TagIf = Block "{{#x}}Y{{else}}N" "" /\
  render 3 "{{#if flag}}{{#x}}Y{{else}}N{{/if}}" (<["flag" := VBool false]> ∅) ∅
  = Done ("", []).
Proof. by vm_compute. Qed.

(** Without the stray marker the same block splits at its else. *)
Lemma splitElse_plain :
  splitElse "{{x}}Y{{else}}N" = ("{{x}}Y", "N") /\
  render 3 "{{#if flag}}{{x}}Y{{else}}N{{/if}}" (<["flag" := VBool false]> ∅) ∅
  = Done ("N", []).
Proof. by vm_compute. Qed.

(** ** Unterminated blocks *)

Lemma splitElse_text (content : string) :
  indexOf "{{" content = None -> splitElse content = (content, "").
Proof.
  intros Hc. apply splitElse_no_else. intros k [_ He]. unfold elseAt in He.
  pose proof (indexOf_None _ _ Hc k) as Hk.
  apply startsWith_inv in He. rewrite He in Hk. done.
Qed.

(** C6.  When the nesting depth never comes back to zero before the content
    is exhausted, [findBlockEnd] returns the whole content as the body and
    an empty rest; the block then renders as if it extended to the end of
    the template: what the body renders to is the last thing put out.  In
    particular, content without a marker after an unterminated if tag is
    put out as it is when the condition is truthy. *)
Theorem findBlockEnd_unterminated (content : string) (tag : blockTag) :
  (forall c, c < String.length content -> depthAfter tag content c <> 0%Z) ->
  findBlockEnd content tag = Block content "" /\
  (forall fuel context partials out log ws path,
     run is_space ws = true -> run is_path_char path = true ->
     render_loop (S fuel) context partials
       (State out log ("{{#if" +:+ ws +:+ path +:+ "}}" +:+ content))
     = (let* val := resolve context path in
        let* r := render fuel (if truthy val then (splitElse content).1
                               else (splitElse content).2) context partials in
        Done (after out log r)) /\
     render_loop (S fuel) context partials
       (State out log ("{{#unless" +:+ ws +:+ path +:+ "}}" +:+ content))
     = (let* val := resolve context path in
        let* r := (if negb (truthy val) then render fuel content context partials
                   else Done nothing) in
        Done (after out log r)) /\
     render_loop (S fuel) context partials
       (State out log ("{{#each" +:+ ws +:+ path +:+ "}}" +:+ content))
     = (let* arr := resolve context path in
        let* r := match isArray arr with
                  | Some items =>
                      let* rs := mapIndexed (fun item index =>
                          render fuel content
                            (itemContext context item index (length items)) partials)
                        0 items in
                      Done (joined rs)
                  | None => Done nothing
                  end in
        Done (after out log r))) /\
  (forall fuel context partials out log ws path v,
     run is_space ws = true -> run is_path_char path = true ->
     indexOf "{{" content = None ->
     resolvePath (VObj context) path = Done v ->
     render_loop (S (S fuel)) context partials
       (State out log ("{{#if" +:+ ws +:+ path +:+ "}}" +:+ content))
     = Done (out +:+ (if truthy v then content else ""), log)).
Proof.
  intros Hnever.
  assert (forall tag', findBlockEnd content tag' = Block content "") as Hb.
  { intros tag'. apply findBlockEnd_never_closed. intros c Hc.
    unfold depthAfter. rewrite (depthBefore_any_tag tag' tag). by apply Hnever. }
  assert (forall fuel context partials out log (o : outcome rendered),
    bind (bind o (fun r => bind (render fuel "" context partials)
                             (fun k => Done (after r.1 r.2 k))))
         (fun r => Done (after out log r))
    = bind o (fun r => Done (after out log r))) as Hend.
  { intros fuel context partials out log [r| | |]; try done.
    rewrite render_empty. simpl. by rewrite after_nothing. }
  assert (forall fuel context partials out log ws path,
     run is_space ws = true -> run is_path_char path = true ->
     render_loop (S fuel) context partials
       (State out log ("{{#if" +:+ ws +:+ path +:+ "}}" +:+ content))
     = (let* val := resolve context path in
        let* r := render fuel (if truthy val then (splitElse content).1
                               else (splitElse content).2) context partials in
        Done (after out log r))) as Hif.
  { intros fuel context partials out log ws path Hws Hpath.
    rewrite render_loop_shift, render_if by done. rewrite Hb. cbv zeta. cbn [body rest].
    rewrite bind_assoc. apply bind_ext. intros val. apply Hend. }
  split; [apply Hb|]. split.
  - intros fuel context partials out log ws path Hws Hpath.
    split; [by apply Hif|].
    rewrite !render_loop_shift, render_unless, render_each by done. rewrite !Hb.
    cbv zeta. cbn [body rest].
    split; rewrite bind_assoc; apply bind_ext; intros val; apply Hend.
  - intros fuel context partials out log ws path v Hws Hpath Htext Hv.
    rewrite Hif by done. unfold resolve. rewrite Hv. cbn [bind].
    rewrite splitElse_text by done. cbn [fst snd].
    destruct (truthy v).
    + rewrite render_literal by done. unfold after. simpl. by rewrite app_nil_r.
    + rewrite render_empty. unfold after, nothing. simpl. by rewrite app_nil_r.
Qed.

(** An if block that is never closed, with a variable inside. *)
Lemma findBlockEnd_unterminated_witness :
  render_loop 4 (<["x" := VNum 1]> (<["y" := VStr "!"]> ∅)) ∅
    (State "a" [] ("{{#if" +:+ " " +:+ "x" +:+ "}}" +:+ "b{{y}}c"))
  = Done ("ab!c", []).
Proof.
  destruct (findBlockEnd_unterminated "b{{y}}c" TagIf) as (_ & H & _).
  - intros c Hc. do 7 (destruct c as [|c]; [by vm_compute|]). simpl in Hc. lia.
  - etransitivity.
    + apply (H 3 (<["x" := VNum 1]> (<["y" := VStr "!"]> ∅)) ∅ "a" [] " " "x");
        reflexivity.
    + reflexivity.
Defined.

(** ** Termination *)

Lemma findBlockEnd_loop_parts (content : string) (tag : blockTag) (n depth pos : nat) :
  exists i j,
    findBlockEnd_loop n content tag depth pos
    = Block (sliceTo i content) (sliceFrom j content).
Proof.
  assert (exists i j, Block content "" = Block (sliceTo i content) (sliceFrom j content))
    as Hwhole.
  { exists (String.length content), (String.length content).
    by rewrite sliceTo_ge, sliceFrom_ge. }
  revert depth pos; induction n as [|n IH]; intros depth pos; [done|].
  rewrite findBlockEnd_loop_S.
  destruct ((0 <? depth) && (pos <? String.length content)); [|done].
  destruct (search (closePattern tag) _) as [[ci cl]|]; [|done]. cbv zeta.
  assert (exists i j,
    (if depth - 1 =? 0
     then Block (sliceTo (pos + ci) content) (sliceFrom (pos + ci + cl) content)
     else findBlockEnd_loop n content tag (depth - 1) (pos + ci + cl))
    = Block (sliceTo i content) (sliceFrom j content)) as Hclose.
  { destruct (depth - 1 =? 0); [eauto | apply IH]. }
  destruct (search (openPattern tag) _) as [[oi ol]|]; [|done].
  destruct (oi <? ci); [apply IH | done].
Qed.

Lemma findBlockEnd_parts (content : string) (tag : blockTag) :
  exists i j,
    body (findBlockEnd content tag) = sliceTo i content /\
    rest (findBlockEnd content tag) = sliceFrom j content.
Proof.
  unfold findBlockEnd.
  destruct (findBlockEnd_loop_parts content tag (S (String.length content)) 1 0)
    as (i & j & ->). eauto.
Qed.

Lemma splitElse_parts (s : string) :
  exists i j, (splitElse s).1 = sliceTo i s /\ (splitElse s).2 = sliceFrom j s.
Proof.
  unfold splitElse. destruct (elseScan s 0 0) as [i|]; simpl; [eauto|].
  exists (String.length s), (String.length s). by rewrite sliceTo_ge, sliceFrom_ge.
Qed.

Lemma length_sliceTo_le (i : nat) (s : string) :
  String.length (sliceTo i s) <= String.length s.
Proof. rewrite length_sliceTo. lia. Qed.

Lemma length_sliceFrom_le (i : nat) (s : string) :
  String.length (sliceFrom i s) <= String.length s.
Proof. rewrite length_sliceFrom. lia. Qed.

Lemma hasPartialTag_false (s : string) :
  hasPartialTag s = false <-> forall j, match_partial (sliceFrom j s) = None.
Proof.
  induction s as [|c s IH]; simpl.
  - split; [by intros _ [|j] | done].
  - destruct (match_partial (String c s)) eqn:Hm.
    + split; [done|]. intros Hj. specialize (Hj 0). simpl in Hj. congruence.
    + rewrite IH. split.
      * intros Hj [|j]; [done | apply Hj].
      * intros Hj j. apply (Hj (S j)).
Qed.

Lemma match_partial_inv (s name : string) (len : nat) :
  match_partial s = Some (name, len) ->
  exists ws1 ws2 r,
    s = "{{>" +:+ ws1 +:+ name +:+ ws2 +:+ "}}" +:+ r /\
    all_chars is_space ws1 = true /\ run is_word name = true /\
    all_chars is_space ws2 = true /\
    len = String.length ("{{>" +:+ ws1 +:+ name +:+ ws2 +:+ "}}").
Proof.
  unfold match_partial.
  destruct (stripPrefix "{{>" s) as [s1|] eqn:H0; [|done].
  destruct (span is_space s1) as [ws1 s2] eqn:H1.
  destruct (span is_word s2) as [name' s3] eqn:H2.
  destruct (span is_space s3) as [ws2 s4] eqn:H3.
  destruct (String.eqb name' "") eqn:Hn; [done|].
  destruct (startsWith "}}" s4) eqn:H4; [|done].
  intros [= <- <-].
  apply stripPrefix_inv in H0. apply span_spec in H1 as (-> & ? & _).
  apply span_spec in H2 as (-> & ? & _). apply span_spec in H3 as (-> & ? & _).
  apply startsWith_inv in H4.
  exists ws1, ws2, (sliceFrom (String.length "}}") s4).
  split; [by rewrite H0, H4 at 1|]. repeat split; try done.
  - unfold run. by rewrite Hn.
  - rewrite !length_app_s. simpl. lia.
Qed.

Lemma match_partial_prefix (m : nat) (s : string) (x : string * nat) :
  match_partial (sliceTo m s) = Some x -> match_partial s = Some x.
Proof.
  destruct x as [name len].
  intros (ws1 & ws2 & r & Hs & ? & ? & ? & ->)%match_partial_inv.
  rewrite <- (sliceTo_sliceFrom m s), Hs.
  replace (("{{>" +:+ ws1 +:+ name +:+ ws2 +:+ "}}" +:+ r) +:+ sliceFrom m s)
    with ("{{>" +:+ ws1 +:+ name +:+ ws2 +:+ "}}" +:+ (r +:+ sliceFrom m s)).
  - by apply match_partial_tag.
  - simpl. by rewrite !app_assoc_s.
Qed.

Lemma sliceFrom_sliceTo (j i : nat) (s : string) :
  sliceFrom j (sliceTo i s) = sliceTo (i - j) (sliceFrom j s).
Proof.
  revert i s; induction j as [|j IH]; intros i s; simpl.
  - by rewrite Nat.sub_0_r.
  - destruct i as [|i], s as [|c s]; simpl; try done.
    by destruct (i - j).
Qed.

Lemma hasPartialTag_sliceFrom (j : nat) (s : string) :
  hasPartialTag s = false -> hasPartialTag (sliceFrom j s) = false.
Proof.
  rewrite !hasPartialTag_false. intros Hs k. rewrite sliceFrom_sliceFrom. apply Hs.
Qed.

Lemma hasPartialTag_sliceTo (i : nat) (s : string) :
  hasPartialTag s = false -> hasPartialTag (sliceTo i s) = false.
Proof.
  rewrite !hasPartialTag_false. intros Hs k. rewrite sliceFrom_sliceTo.
  destruct (match_partial (sliceTo (i - k) (sliceFrom k s))) eqn:Hm; [|done].
  apply match_partial_prefix in Hm. by rewrite Hs in Hm.
Qed.

Lemma indexOf_Some (needle s : string) (i : nat) :
  indexOf needle s = Some i -> startsWith needle (sliceFrom i s) = true.
Proof.
  revert i; induction s as [|c s IH]; intros i; simpl.
  - destruct (startsWith needle "") eqn:Hn; [by intros [= <-] | done].
  - destruct (startsWith needle (String c s)) eqn:Hn; [by intros [= <-]|].
    destruct (indexOf needle s) as [j|]; [|done]. intros [= <-]. by apply IH.
Qed.

Lemma marker_length (s : string) (i : nat) :
  indexOf "{{" s = Some i -> 2 <= String.length (sliceFrom i s).
Proof.
  intros Hs%indexOf_Some%startsWith_inv. rewrite Hs, length_app_s. simpl. lia.
Qed.

Lemma match_partial_length (s name : string) (len : nat) :
  match_partial s = Some (name, len) -> 2 <= len.
Proof.
  intros (ws1 & ws2 & r & _ & _ & _ & _ & ->)%match_partial_inv. simpl. lia.
Qed.

Lemma match_block_length (kind s path : string) (len : nat) :
  match_block kind s = Some (path, len) -> 2 <= len.
Proof.
  unfold match_block. destruct (stripPrefix _ s) as [s1|]; [|done].
  destruct (span is_space s1) as [ws s2]. destruct (span is_path_char s2) as [p s3].
  destruct (_ || _); [done|]. destruct (startsWith "}}" s3); [|done].
  intros [= _ <-]. simpl. lia.
Qed.

Lemma match_var_length (s path : string) (len : nat) :
  match_var s = Some (path, len) -> 2 <= len.
Proof.
  unfold match_var. destruct (stripPrefix _ s) as [s1|]; [|done].
  destruct (span is_var_char s1) as [p s2].
  destruct (String.eqb p ""); [done|]. destruct (startsWith "}}" s2); [|done].
  intros [= _ <-]. simpl. lia.
Qed.

Lemma bind_Done_inv {A B : Type} (o : outcome A) (k : A -> outcome B) (b : B) :
  bind o k = Done b -> exists a, o = Done a /\ k a = Done b.
Proof. destruct o; simpl; [eauto | done..]. Qed.

Lemma emit_inv (st st' : state) (out : string) (r : rendered) (rem : string) :
  emit st out r rem = Done (Continue st') -> remaining st' = rem.
Proof. unfold emit. by intros [= <-]. Qed.

(** Every iteration of the loop that does not end it takes at least the two
    characters of the marker off the remaining text. *)
Lemma loop_body_consumes rec context partials (st st' : state) :
  loop_body rec context partials st = Done (Continue st') ->
  String.length (remaining st') + 2 <= String.length (remaining st).
Proof.
  unfold loop_body. destruct (indexOf "{{" (remaining st)) as [tagIdx|] eqn:Hidx; [|done].
  pose proof (marker_length _ _ Hidx) as Hlen.
  pose proof (length_sliceFrom_le tagIdx (remaining st)) as Hle.
  set (rem := sliceFrom tagIdx (remaining st)) in *.
  assert (forall len rem', 2 <= len ->
            String.length rem' <= String.length (sliceFrom len rem) ->
            String.length rem' + 2 <= String.length (remaining st)) as Hfinal.
  { intros len rem' ?. rewrite length_sliceFrom. lia. }
  destruct (match_partial rem) as [[name len]|] eqn:Hp.
  { intros (r & _ & ->%emit_inv)%bind_Done_inv.
    eapply Hfinal; [by eapply match_partial_length | done]. }
  destruct (match_block "each" rem) as [[path len]|] eqn:He.
  { intros (arr & _ & (r & _ & ->%emit_inv)%bind_Done_inv)%bind_Done_inv.
    destruct (findBlockEnd_parts (sliceFrom len rem) TagEach) as (i & j & _ & ->).
    eapply Hfinal; [by eapply match_block_length | apply length_sliceFrom_le]. }
  destruct (match_block "if" rem) as [[path len]|] eqn:Hi.
  { intros (val & _ & H)%bind_Done_inv. destruct (splitElse _) as [ifBody elseBody].
    apply bind_Done_inv in H as (r & _ & ->%emit_inv).
    destruct (findBlockEnd_parts (sliceFrom len rem) TagIf) as (i & j & _ & ->).
    eapply Hfinal; [by eapply match_block_length | apply length_sliceFrom_le]. }
  destruct (match_block "unless" rem) as [[path len]|] eqn:Hu.
  { intros (val & _ & (r & _ & ->%emit_inv)%bind_Done_inv)%bind_Done_inv.
    destruct (findBlockEnd_parts (sliceFrom len rem) TagUnless) as (i & j & _ & ->).
    eapply Hfinal; [by eapply match_block_length | apply length_sliceFrom_le]. }
  destruct (match_var rem) as [[path len]|] eqn:Hv.
  { intros (val & _ & (text & _ & ->%emit_inv)%bind_Done_inv)%bind_Done_inv.
    eapply Hfinal; [by eapply match_var_length | done]. }
  intros ->%emit_inv. by apply (Hfinal 2).
Qed.

(** The texts the loop body hands to [render] when no partial reference is
    met: parts of the block that starts at the marker, shorter than the
    remaining text and free of partial references like it. *)
Lemma loop_body_calls rec rec' context partials (st : state) :
  hasPartialTag (remaining st) = false ->
  (forall t c, String.length t < String.length (remaining st) ->
               hasPartialTag t = false -> rec t c partials = rec' t c partials) ->
  loop_body rec context partials st = loop_body rec' context partials st.
Proof.
  intros Hfree Hrec. unfold loop_body.
  destruct (indexOf "{{" (remaining st)) as [tagIdx|] eqn:Hidx; [|done].
  pose proof (marker_length _ _ Hidx) as Hlen.
  pose proof (length_sliceFrom_le tagIdx (remaining st)) as Hle.
  pose proof (hasPartialTag_sliceFrom tagIdx _ Hfree) as Hfree'.
  set (rem := sliceFrom tagIdx (remaining st)) in *.
  assert (match_partial rem = None) as ->.
  { rewrite hasPartialTag_false in Hfree'. apply (Hfree' 0). }
  assert (forall len i c, 2 <= len ->
            rec (sliceTo i (sliceFrom len rem)) c partials
            = rec' (sliceTo i (sliceFrom len rem)) c partials)
    as Hbody.
  { intros len i c ?. apply Hrec.
    - pose proof (length_sliceTo_le i (sliceFrom len rem)).
      pose proof (length_sliceFrom len rem). lia.
    - by apply hasPartialTag_sliceTo, hasPartialTag_sliceFrom. }
  assert (forall len i k c, 2 <= len ->
            rec (sliceTo k (sliceTo i (sliceFrom len rem))) c partials
            = rec' (sliceTo k (sliceTo i (sliceFrom len rem))) c partials) as Hif.
  { intros len i k c ?. apply Hrec.
    - pose proof (length_sliceTo_le k (sliceTo i (sliceFrom len rem))).
      pose proof (length_sliceTo_le i (sliceFrom len rem)).
      pose proof (length_sliceFrom len rem). lia.
    - by apply hasPartialTag_sliceTo, hasPartialTag_sliceTo, hasPartialTag_sliceFrom. }
  assert (forall len i k c, 2 <= len ->
            rec (sliceFrom k (sliceTo i (sliceFrom len rem))) c partials
            = rec' (sliceFrom k (sliceTo i (sliceFrom len rem))) c partials) as Helse.
  { intros len i k c ?. apply Hrec.
    - pose proof (length_sliceFrom_le k (sliceTo i (sliceFrom len rem))).
      pose proof (length_sliceTo_le i (sliceFrom len rem)).
      pose proof (length_sliceFrom len rem). lia.
    - by apply hasPartialTag_sliceFrom, hasPartialTag_sliceTo, hasPartialTag_sliceFrom. }
  destruct (match_block "each" rem) as [[path len]|] eqn:He.
  { apply match_block_length in He.
    destruct (findBlockEnd_parts (sliceFrom len rem) TagEach) as (i & j & -> & _).
    apply bind_ext. intros arr. destruct (isArray arr) as [items|]; [|done].
    f_equal. f_equal. apply mapIndexed_ext. intros item idx. by apply Hbody. }
  destruct (match_block "if" rem) as [[path len]|] eqn:Hi.
  { apply match_block_length in Hi.
    destruct (findBlockEnd_parts (sliceFrom len rem) TagIf) as (i & j & Hb & _).
    apply bind_ext. intros val.
    destruct (splitElse_parts (body (findBlockEnd (sliceFrom len rem) TagIf)))
      as (k & l & Hk & Hl).
    destruct (splitElse _) as [ifBody elseBody]. simpl in Hk, Hl. subst ifBody elseBody.
    rewrite Hb. destruct (truthy val); by rewrite ?Hif, ?Helse. }
  destruct (match_block "unless" rem) as [[path len]|] eqn:Hu.
  { apply match_block_length in Hu.
    destruct (findBlockEnd_parts (sliceFrom len rem) TagUnless) as (i & j & -> & _).
    apply bind_ext. intros val. destruct (negb (truthy val)); [|done].
    by rewrite Hbody. }
  done.
Qed.

(** What remains after an iteration is a suffix of what remained before. *)
Lemma loop_body_suffix rec context partials (st st' : state) :
  loop_body rec context partials st = Done (Continue st') ->
  exists j, remaining st' = sliceFrom j (remaining st).
Proof.
  unfold loop_body. destruct (indexOf "{{" (remaining st)) as [tagIdx|] eqn:Hidx; [|done].
  assert (forall len b, (exists i j, body b = sliceTo i (sliceFrom len (sliceFrom tagIdx (remaining st)))
                         /\ rest b = sliceFrom j (sliceFrom len (sliceFrom tagIdx (remaining st)))) ->
            exists j, rest b = sliceFrom j (remaining st)) as Hrest.
  { intros len b (i & j & _ & ->). rewrite !sliceFrom_sliceFrom. eauto. }
  destruct (match_partial _) as [[name len]|].
  { intros (r & _ & ->%emit_inv)%bind_Done_inv. rewrite sliceFrom_sliceFrom. eauto. }
  destruct (match_block "each" _) as [[path len]|].
  { intros (arr & _ & (r & _ & ->%emit_inv)%bind_Done_inv)%bind_Done_inv.
    eapply Hrest, findBlockEnd_parts. }
  destruct (match_block "if" _) as [[path len]|].
  { intros (val & _ & H)%bind_Done_inv. destruct (splitElse _) as [ifBody elseBody].
    apply bind_Done_inv in H as (r & _ & ->%emit_inv).
    eapply Hrest, findBlockEnd_parts. }
  destruct (match_block "unless" _) as [[path len]|].
  { intros (val & _ & (r & _ & ->%emit_inv)%bind_Done_inv)%bind_Done_inv.
    eapply Hrest, findBlockEnd_parts. }
  destruct (match_var _) as [[path len]|].
  { intros (val & _ & (text & _ & ->%emit_inv)%bind_Done_inv)%bind_Done_inv.
    rewrite sliceFrom_sliceFrom. eauto. }
  intros ->%emit_inv. rewrite sliceFrom_sliceFrom. eauto.
Qed.

Lemma bind_halts {A B : Type} (o : outcome A) (k : A -> outcome B) :
  o <> OutOfFuel -> (forall a, o = Done a -> k a <> OutOfFuel) -> bind o k <> OutOfFuel.
Proof. destruct o; simpl; auto. Qed.

Lemma get_halts (v : value) (key : string) : get v key <> OutOfFuel.
Proof.
  destruct v as [| | | | s | items | props | [name arity|]]; simpl;
    repeat case_decide; try done.
  - by destruct (atKey key 0 (chars s)), (is_numeral key).
  - by destruct (atKey key 0 items), (is_numeral key).
Qed.

Lemma resolve_halts (context : gmap string value) (path : string) :
  resolve context path <> OutOfFuel.
Proof.
  unfold resolve, resolvePath. generalize (VObj context).
  induction (split "." path) as [|k keys IH]; intros acc; simpl; [done|].
  apply bind_halts; [|auto]. destruct acc; try done; apply get_halts.
Qed.

Lemma toString_halts (v : value) : toString v <> OutOfFuel.
Proof.
  revert v. fix IH 1. intros [| | [] | z | s | items | props | [name arity|]];
    simpl; try done.
  - by destruct (is_safe z).
  - apply bind_halts; [|done].
    induction items as [|x items IHitems]; [done|].
    apply bind_halts; [|intros; by apply bind_halts].
    pose proof (IH x) as Hx. by destruct x.
  - destruct (props !! "toString") as [[| | | | | | |[]]|]; try done;
      by destruct (props !! "valueOf") as [[| | | | | | |[]]|].
Qed.

Lemma shown_halts (v : value) : shown v <> OutOfFuel.
Proof. destruct v; try done; apply toString_halts. Qed.

Lemma mapIndexed_halts (f : value -> nat -> outcome rendered) index items :
  (forall item i, f item i <> OutOfFuel) -> mapIndexed f index items <> OutOfFuel.
Proof.
  intros Hf. revert index; induction items as [|item items IH]; intros index; simpl;
    [done|]. apply bind_halts; [apply Hf|]. intros r _.
  apply bind_halts; [apply IH | done].
Qed.

(** Without a partial reference in the remaining text, an iteration whose
    calls of [render] all stay within their budget stays within its own. *)
Lemma loop_body_halts rec context partials (st : state) :
  hasPartialTag (remaining st) = false ->
  (forall t c, rec t c partials <> OutOfFuel) ->
  loop_body rec context partials st <> OutOfFuel.
Proof.
  intros Hfree Hrec. unfold loop_body.
  destruct (indexOf "{{" (remaining st)) as [tagIdx|] eqn:Hidx; [|done].
  pose proof (hasPartialTag_sliceFrom tagIdx _ Hfree) as Hfree'.
  set (rem := sliceFrom tagIdx (remaining st)) in *.
  assert (match_partial rem = None) as ->.
  { rewrite hasPartialTag_false in Hfree'. apply (Hfree' 0). }
  destruct (match_block "each" rem) as [[path len]|].
  { apply bind_halts; [apply resolve_halts|]. intros arr _.
    apply bind_halts; [|done].
    destruct (isArray arr) as [items|]; [|done].
    apply bind_halts; [|done]. apply mapIndexed_halts. intros; apply Hrec. }
  destruct (match_block "if" rem) as [[path len]|].
  { apply bind_halts; [apply resolve_halts|]. intros val _.
    destruct (splitElse _) as [ifBody elseBody].
    apply bind_halts; [apply Hrec | done]. }
  destruct (match_block "unless" rem) as [[path len]|].
  { apply bind_halts; [apply resolve_halts|]. intros val _.
    apply bind_halts; [|done]. destruct (negb (truthy val)); [apply Hrec | done]. }
  destruct (match_var rem) as [[path len]|]; [|done].
  apply bind_halts; [apply resolve_halts|]. intros val _.
  apply bind_halts; [apply (shown_halts val) | done].
Qed.

Lemma render_fuel_enough (partials : gmap string string) (n : nat) :
  forall template context,
    String.length template <= n -> hasPartialTag template = false ->
    render n template context partials <> OutOfFuel.
Proof.
  induction n as [|n IH]; intros template context Hlen Hfree.
  - destruct template; [|simpl in Hlen; lia]. by rewrite render_empty.
  - rewrite render_unfold. destruct (0 <? String.length template); [|done].
    set (rec' := fun t c p =>
      if decide (String.length t <= n /\ hasPartialTag t = false)
      then render n t c p else Done nothing).
    rewrite (loop_body_calls _ rec').
    2:{ done. }
    2:{ intros t c Ht Hf. unfold rec'. simpl in Ht.
        by rewrite decide_True by (split; [lia | done]). }
    apply bind_halts.
    { apply loop_body_halts; [done|]. intros t c. unfold rec'.
      case_decide as Hd; [|done]. destruct Hd. by apply IH. }
    intros [r|st'] Hs; [done|].
    pose proof (loop_body_consumes _ _ _ _ _ Hs) as Hc. simpl in Hc.
    destruct (loop_body_suffix _ _ _ _ _ Hs) as [j Hj]. simpl in Hj.
    apply bind_halts; [|done]. apply IH; [lia|].
    rewrite Hj. by apply hasPartialTag_sliceFrom.
Qed.

(** C10.  A template without partial references never uses up a budget of
    its own length, and a larger budget changes nothing; every iteration of
    the loop that goes on has taken at least two characters off the
    remaining text, and when that text holds no partial reference the calls
    of [render] made by the iteration are on strictly shorter texts. *)
Theorem render_terminates (template : string) (context : gmap string value)
    (partials : gmap string string) :
  hasPartialTag template = false ->
  (render (String.length template) template context partials <> OutOfFuel /\
   forall fuel, String.length template <= fuel ->
     render fuel template context partials
     = render (String.length template) template context partials) /\
  (forall rec st st',
     loop_body rec context partials st = Done (Continue st') ->
     String.length (remaining st') + 2 <= String.length (remaining st)) /\
  (forall rec rec' st,
     hasPartialTag (remaining st) = false ->
     (forall t c, String.length t < String.length (remaining st) ->
                  rec t c partials = rec' t c partials) ->
     loop_body rec context partials st = loop_body rec' context partials st).
Proof.
  intros Hfree.
  pose proof (render_fuel_enough partials _ template context (le_n _) Hfree) as Hlen.
  split; [split; [done|] | split].
  - intros fuel Hfuel.
    by destruct (refines_render _ fuel template context partials Hfuel) as [?| <-].
  - intros rec st st'. apply loop_body_consumes.
  - intros rec rec' st Hst Hrec. apply loop_body_calls; [done|]. auto.
Qed.

(** A template with nested blocks and no partial reference, of length 62:
    a budget of 99 gives what a budget of 62 gives. *)
Lemma render_terminates_witness :
  render 99 "{{#each xs}}{{#if this.ok}}{{this.n}}{{else}}-{{/if}}{{/each}}"
    (<["xs" := VArr [VObj (<["n" := VNum 1]> ∅)]]> ∅) ∅
  = Done ("-", []).
Proof.
  destruct (render_terminates
    "{{#each xs}}{{#if this.ok}}{{this.n}}{{else}}-{{/if}}{{/each}}"
    (<["xs" := VArr [VObj (<["n" := VNum 1]> ∅)]]> ∅) ∅) as [[_ H] _];
    [by vm_compute|].
  etransitivity; [apply (H 99); vm_compute; lia | by vm_compute].
Defined.

(** ** Paths: composition and array indices *)

Lemma split_no_sep (sep : ascii) (s : string) :
  all_chars (fun c => negb (Ascii.eqb c sep)) s = true -> split sep s = [s].
Proof.
  induction s as [|c s IH]; simpl; [done|].
  intros [Hc Hs]%andb_prop. apply negb_true_iff in Hc as ->. by rewrite IH.
Qed.

(** The decimal digits that [pretty] writes. *)
Lemma pretty_N_char_digit (x : N) : in_range 48 57 (pretty_N_char x) = true.
Proof. by destruct x as [|[[[[|[]|]|[]|]|[[]|[]|]|]|[[[]|[]|]|[[]|[]|]|]|]]. Qed.

Lemma pretty_N_go_digits (x : N) (s : string) :
  run (in_range 48 57) s = true -> run (in_range 48 57) (pretty_N_go x s) = true.
Proof.
  revert s. induction (N.lt_wf_0 x) as [x _ IH]. intros s Hs.
  destruct (decide (x = 0%N)) as [->|Hx]; [by rewrite pretty_N_go_0|].
  rewrite pretty_N_go_step by lia. apply IH.
  - apply N.div_lt; lia.
  - unfold run in *. simpl. rewrite pretty_N_char_digit.
    by apply andb_prop in Hs as [_ ->].
Qed.

Lemma pretty_nat_digits (i : nat) : run (in_range 48 57) (pretty i) = true.
Proof.
  unfold pretty, pretty_nat, pretty, pretty_N.
  case_decide; [done|].
  rewrite pretty_N_go_step by lia. apply pretty_N_go_digits.
  unfold run. simpl. by rewrite pretty_N_char_digit.
Qed.

Lemma all_chars_impl (p q : ascii -> bool) (s : string) :
  (forall c, p c = true -> q c = true) -> all_chars p s = true -> all_chars q s = true.
Proof.
  intros Hpq. induction s as [|c s IH]; simpl; [done|].
  intros [Hc Hs]%andb_prop. by rewrite (Hpq c Hc), IH.
Qed.

Lemma digit_not_dot (c : ascii) :
  in_range 48 57 c = true -> negb (Ascii.eqb c ".") = true.
Proof. destruct c as [[] [] [] [] [] [] [] []]; by vm_compute. Qed.

Lemma pretty_nat_not_length (i : nat) : pretty i <> "length".
Proof.
  intros H. pose proof (pretty_nat_digits i) as Hd. rewrite H in Hd. by vm_compute in Hd.
Qed.

Lemma atKey_index {A : Type} (i k : nat) (l : list A) :
  atKey (pretty (k + i)) k l = l !! i.
Proof.
  revert i k; induction l as [|x l IH]; intros i k; simpl; [done|].
  destruct i as [|i].
  - rewrite Nat.add_0_r. by rewrite decide_True.
  - rewrite decide_False by (intros ?%(inj pretty); lia).
    rewrite <- Nat.add_succ_comm. apply IH.
Qed.

(** A path is resolved segment by segment: the part after a dot is resolved
    on what the part before it resolves to. *)
Theorem resolvePath_compose (obj : value) (a b : string) :
  resolvePath obj (a +:+ "." +:+ b) = let* acc := resolvePath obj a in resolvePath acc b.
Proof.
  unfold resolvePath. simpl String.append. by rewrite split_app_sep, reduce_app.
Qed.

(** A decimal segment on an array reads the element at that index, and
    undefined beyond the end; the segment length reads the number of
    elements.  Neither raises. *)
Theorem resolvePath_array_index (obj : value) (path : string) (items : list value) (i : nat) :
  resolvePath obj path = Done (VArr items) ->
  resolvePath obj (path +:+ "." +:+ pretty i) = Done (default VUndefined (items !! i)) /\
  resolvePath obj (path +:+ "." +:+ "length") = Done (VNum (Z.of_nat (length items))).
Proof.
  intros Hp. unfold resolvePath in *. simpl String.append.
  rewrite !split_app_sep, !reduce_app, Hp. split; [|done].
  rewrite split_no_sep.
  2:{ apply all_chars_impl with (in_range 48 57); [apply digit_not_dot|].
      apply run_all, pretty_nat_digits. }
  simpl. rewrite decide_False by apply pretty_nat_not_length.
  rewrite (atKey_index i 0). destruct (items !! i); [done|].
  unfold is_numeral. by rewrite pretty_nat_digits.
Qed.

Lemma resolvePath_array_index_witness :
  resolvePath (VObj (<["xs" := VArr [VStr "a"; VStr "b"]]> ∅)) "xs.5" = Done VUndefined /\
  resolvePath (VObj (<["xs" := VArr [VStr "a"; VStr "b"]]> ∅)) "xs.length" = Done (VNum 2).
Proof.
  apply (resolvePath_array_index (VObj (<["xs" := VArr [VStr "a"; VStr "b"]]> ∅))
           "xs" [VStr "a"; VStr "b"] 5).
  reflexivity.
Defined.

(** ** Text, variables and unrecognised markers *)

Lemma indexOf_skip (lit t : string) :
  indexOf "{{" (lit +:+ "{") = None ->
  indexOf "{{" (lit +:+ t) = (fun i => String.length lit + i) <$> indexOf "{{" t.
Proof.
  induction lit as [|c lit IH]; intros Hlit.
  - simpl. by destruct (indexOf "{{" t).
  - change (indexOf "{{" (String c lit +:+ "{"))
      with (if Ascii.eqb "{" c && startsWith "{" (lit +:+ "{") then Some 0
            else S <$> indexOf "{{" (lit +:+ "{")) in Hlit.
    change (indexOf "{{" (String c lit +:+ t))
      with (if Ascii.eqb "{" c && startsWith "{" (lit +:+ t) then Some 0
            else S <$> indexOf "{{" (lit +:+ t)).
    destruct (Ascii.eqb "{" c && startsWith "{" (lit +:+ "{")) eqn:Hc; [done|].
    assert (Ascii.eqb "{" c && startsWith "{" (lit +:+ t) = false) as ->.
    { destruct (Ascii.eqb "{" c); [|done]. destruct lit as [|d lit]; [done|].
      simpl in *. by destruct (Ascii.eqb "{" d). }
    rewrite IH by (by destruct (indexOf "{{" (lit +:+ "{"))).
    by destruct (indexOf "{{" t).
Qed.

Lemma sliceTo_app_add (a b : string) (i : nat) :
  sliceTo (String.length a + i) (a +:+ b) = a +:+ sliceTo i b.
Proof. induction a as [|x a IH]; simpl; [done | by rewrite IH]. Qed.

Lemma sliceFrom_app_add (a b : string) (i : nat) :
  sliceFrom (String.length a + i) (a +:+ b) = sliceFrom i b.
Proof. induction a as [|x a IH]; simpl; done. Qed.

(** Text before the first marker only moves into the output. *)
Lemma loop_body_text rec context partials (lit t : string) :
  indexOf "{{" (lit +:+ "{") = None ->
  loop_body rec context partials (State "" [] (lit +:+ t))
  = loop_body rec context partials (State lit [] t).
Proof.
  intros Hlit. unfold loop_body. cbn [remaining output warnings].
  rewrite indexOf_skip by done. destruct (indexOf "{{" t) as [i|]; simpl; [|done].
  by rewrite sliceTo_app_add, sliceFrom_app_add.
Qed.

Lemma render_loop_text fuel context partials (lit t : string) :
  indexOf "{{" (lit +:+ "{") = None ->
  render_loop (S fuel) context partials (State "" [] (lit +:+ t))
  = render_loop (S fuel) context partials (State lit [] t).
Proof.
  intros Hlit. rewrite !render_loop_unfold. cbn [remaining output warnings].
  rewrite loop_body_text by done.
  destruct t as [|c t].
  - rewrite app_empty_r. destruct lit as [|d lit]; [done|].
    change (0 <? String.length (String d lit)) with true.
    change (0 <? String.length "") with false. cbv iota.
    unfold loop_body. simpl. by rewrite app_empty_r.
  - rewrite length_app_s. simpl String.length.
    by replace (0 <? String.length lit + S (String.length t)) with true
      by (symmetry; apply Nat.ltb_lt; lia).
Qed.

Lemma render_text fuel context partials (lit t : string) :
  indexOf "{{" (lit +:+ "{") = None ->
  render (S fuel) (lit +:+ t) context partials
  = let* r := render (S fuel) t context partials in Done (after lit [] r).
Proof.
  intros Hlit. unfold render at 1. rewrite render_loop_text by done.
  apply render_loop_shift.
Qed.

(** Text that holds no marker and does not end with a brace is copied to
    the output as it is, single braces included, and what follows it is
    rendered as if it stood alone; when nothing follows, the output is the
    text. *)
Theorem render_text_prefix (fuel : nat) (lit t : string)
    (context : gmap string value) (partials : gmap string string) :
  indexOf "{{" (lit +:+ "{") = None ->
  render (S fuel) (lit +:+ t) context partials
  = (let* r := render (S fuel) t context partials in Done (after lit [] r)) /\
  render (S fuel) lit context partials = Done (lit, []).
Proof.
  intros Hlit. split; [by apply render_text|].
  rewrite <- (app_empty_r lit) at 1. rewrite render_text by done.
  rewrite render_empty. unfold after, nothing. simpl. by rewrite app_empty_r.
Qed.

Lemma render_text_prefix_witness :
  render 3 ("p { color: red } Hello, " +:+ "{{name}}!") (<["name" := VStr "Ann"]> ∅) ∅
  = Done ("p { color: red } Hello, Ann!", []).
Proof.
  etransitivity.
  - apply (render_text_prefix 2 "p { color: red } Hello, " "{{name}}!"). reflexivity.
  - reflexivity.
Defined.

Lemma var_char_not_tag (c : ascii) :
  is_var_char c = true -> Ascii.eqb ">" c = false /\ Ascii.eqb "#" c = false.
Proof. destruct c as [[] [] [] [] [] [] [] []]; by vm_compute. Qed.

Lemma match_var_tag (path content : string) :
  run is_var_char path = true ->
  match_var ("{{" +:+ path +:+ "}}" +:+ content)
  = Some (path, String.length ("{{" +:+ path +:+ "}}")).
Proof.
  intros Hpath. unfold match_var.
  change ("{{" +:+ path +:+ "}}" +:+ content)
    with ("{{" +:+ (path +:+ "}}" +:+ content)).
  rewrite stripPrefix_app.
  rewrite (span_app is_var_char path); [|by apply run_all | done].
  rewrite (run_nonempty _ _ Hpath), startsWith_app. do 2 f_equal.
  rewrite !length_app_s. simpl. lia.
Qed.

(** A variable tag at the head of the template. *)
Lemma render_var fuel context partials (path content : string) :
  run is_var_char path = true ->
  render (S fuel) ("{{" +:+ path +:+ "}}" +:+ content) context partials =
  bind (resolve context path) (fun val =>
  bind (shown val) (fun text =>
  bind (render fuel content context partials) (fun k =>
  Done (after text [] k)))).
Proof.
  intros Hpath. rewrite render_unfold.
  change (0 <? String.length _) with true. cbv iota.
  change ("{{" +:+ path +:+ "}}" +:+ content)
    with ("{{" +:+ (path +:+ "}}" +:+ content)).
  rewrite loop_body_marker. cbv zeta.
  change ("{{" +:+ (path +:+ "}}" +:+ content))
    with ("{{" +:+ path +:+ "}}" +:+ content).
  rewrite (match_var_tag path content Hpath).
  destruct (run_inv _ _ Hpath) as (c & path' & -> & Hc & _).
  destruct (var_char_not_tag c Hc) as [Hgt Hhash].
  assert (match_partial ("{{" +:+ String c path' +:+ "}}" +:+ content) = None) as ->.
  { unfold match_partial, stripPrefix. simpl. by rewrite Hgt. }
  assert (forall kind, match_block kind
            ("{{" +:+ String c path' +:+ "}}" +:+ content) = None) as Hb.
  { intros kind. unfold match_block, stripPrefix. simpl. by rewrite Hhash. }
  rewrite !Hb. cbv iota.
  rewrite <- !app_assoc_s, sliceFrom_app, !bind_assoc.
  apply bind_ext. intros val. rewrite bind_assoc. apply bind_ext. intros text.
  apply (emit_continue (text, [])).
Qed.

(** ** The block scanner: further properties *)

Lemma search_ext (m m' : string -> option nat) (s : string) :
  (forall t, m t = m' t) -> search m s = search m' s.
Proof.
  intros Hm. induction s as [|c s IH]; simpl; rewrite <- Hm; [done|].
  by rewrite IH.
Qed.

Lemma findBlockEnd_loop_any_tag (content : string) (tag tag' : blockTag) (n depth pos : nat) :
  findBlockEnd_loop n content tag depth pos = findBlockEnd_loop n content tag' depth pos.
Proof.
  revert depth pos; induction n as [|n IH]; intros depth pos; [done|].
  rewrite !findBlockEnd_loop_S.
  rewrite (search_ext (closePattern tag) (closePattern tag'))
    by apply closePattern_any_tag.
  rewrite (search_ext (openPattern tag) (openPattern tag'))
    by apply openPattern_any_tag.
  destruct ((0 <? depth) && (pos <? String.length content)); [|done].
  destruct (search (closePattern tag') (sliceFrom pos content)) as [[ci cl]|]; [|done].
  cbv zeta. rewrite (IH (depth - 1)).
  destruct (search (openPattern tag') (sliceFrom pos content)) as [[oi ol]|]; [|done].
  by rewrite (IH (depth + 1)).
Qed.

(** The kind of block [findBlockEnd] is called for does not matter: the
    opening and closing tags of all three kinds are counted alike, so a
    block is ended by the closing tag of any kind. *)
Theorem findBlockEnd_any_kind (content : string) (tag tag' : blockTag) :
  findBlockEnd content tag = findBlockEnd content tag'.
Proof. apply findBlockEnd_loop_any_tag. Qed.

Lemma findBlockEnd_loop_pieces (content : string) (tag : blockTag) (n depth pos : nat) :
  let b := findBlockEnd_loop n content tag depth pos in
  b = Block content "" \/
  exists kind, (kind = "if" \/ kind = "each" \/ kind = "unless") /\
    content = body b +:+ "{{/" +:+ kind +:+ "}}" +:+ rest b.
Proof.
  revert depth pos; induction n as [|n IH]; intros depth pos; [by left|].
  cbv zeta. rewrite findBlockEnd_loop_S.
  destruct ((0 <? depth) && (pos <? String.length content)); [|by left].
  destruct (search (closePattern tag) (sliceFrom pos content)) as [[ci cl]|] eqn:Hsc;
    [|by left].
  apply search_at in Hsc as [Hci _]. cbv zeta.
  assert (let b := if depth - 1 =? 0
                   then Block (sliceTo (pos + ci) content)
                              (sliceFrom (pos + ci + cl) content)
                   else findBlockEnd_loop n content tag (depth - 1) (pos + ci + cl) in
          b = Block content "" \/
          exists kind, (kind = "if" \/ kind = "each" \/ kind = "unless") /\
            content = body b +:+ "{{/" +:+ kind +:+ "}}" +:+ rest b) as Hclose.
  { destruct (depth - 1 =? 0); [|apply IH]. right.
    apply closePattern_shape in Hci as (alt & r & Halt & Hr & ->).
    exists alt. split; [done|]. cbn [body rest].
    assert (sliceFrom (pos + ci + (String.length alt + 5)) content = r) as ->.
    { rewrite <- sliceFrom_sliceFrom, Hr. by destruct Halt as [->|[->| ->]]. }
    rewrite <- Hr. by rewrite sliceTo_sliceFrom. }
  destruct (search (openPattern tag) (sliceFrom pos content)) as [[oi ol]|];
    [|apply Hclose].
  destruct (oi <? ci); [apply IH | apply Hclose].
Qed.

(** [findBlockEnd] loses nothing: either no closing tag ends the block, and
    the body is the whole content with nothing after it, or the content is
    the body, one closing tag of some kind, and the rest. *)
Theorem findBlockEnd_pieces (content : string) (tag : blockTag) :
  let b := findBlockEnd content tag in
  b = Block content "" \/
  exists kind, (kind = "if" \/ kind = "each" \/ kind = "unless") /\
    content = body b +:+ "{{/" +:+ kind +:+ "}}" +:+ rest b.
Proof. apply findBlockEnd_loop_pieces. Qed.

Lemma search_skip (m : string -> option nat) (k : nat) (s : string) :
  (forall j, j < k -> m (sliceFrom j s) = None) ->
  search m s = (fun il => (k + il.1, il.2)) <$> search m (sliceFrom k s).
Proof.
  revert s; induction k as [|k IH]; intros s Hk.
  - simpl. by destruct (search m s) as [[i l]|].
  - pose proof (Hk 0 ltac:(lia)) as H0. simpl in H0.
    destruct s as [|c s]; simpl; rewrite H0; [done|].
    rewrite (IH s).
    2:{ intros j Hj. apply (Hk (S j)). lia. }
    by destruct (search m (sliceFrom k s)) as [[i l]|].
Qed.

(** The scanner started after a prefix of the content. *)
Lemma findBlockEnd_loop_after (p content : string) (tag : blockTag) (n depth pos : nat) :
  findBlockEnd_loop n (p +:+ content) tag depth (String.length p + pos)
  = Block (p +:+ body (findBlockEnd_loop n content tag depth pos))
          (rest (findBlockEnd_loop n content tag depth pos)).
Proof.
  revert depth pos; induction n as [|n IH]; intros depth pos; [done|].
  rewrite !findBlockEnd_loop_S, sliceFrom_app_add, length_app_s.
  replace (String.length p + pos <? String.length p + String.length content)
    with (pos <? String.length content).
  2:{ destruct (Nat.ltb_spec pos (String.length content));
      symmetry; [apply Nat.ltb_lt | apply Nat.ltb_ge]; lia. }
  destruct ((0 <? depth) && (pos <? String.length content)); [|done].
  destruct (search (closePattern tag) (sliceFrom pos content)) as [[ci cl]|]; [|done].
  cbv zeta.
  assert ((if depth - 1 =? 0
           then Block (sliceTo (String.length p + pos + ci) (p +:+ content))
                      (sliceFrom (String.length p + pos + ci + cl) (p +:+ content))
           else findBlockEnd_loop n (p +:+ content) tag (depth - 1)
                  (String.length p + pos + ci + cl))
          = let b := if depth - 1 =? 0
                     then Block (sliceTo (pos + ci) content)
                                (sliceFrom (pos + ci + cl) content)
                     else findBlockEnd_loop n content tag (depth - 1) (pos + ci + cl) in
            Block (p +:+ body b) (rest b)) as Hclose.
  { cbv zeta. rewrite <- !Nat.add_assoc. destruct (depth - 1 =? 0).
    - by rewrite sliceTo_app_add, sliceFrom_app_add.
    - rewrite IH. by rewrite !Nat.add_assoc. }
  destruct (search (openPattern tag) (sliceFrom pos content)) as [[oi ol]|];
    [|apply Hclose].
  destruct (oi <? ci); [|apply Hclose].
  rewrite <- !Nat.add_assoc, IH. by rewrite !Nat.add_assoc.
Qed.

(** A prefix in which no tag starts goes into the body as it is. *)
Lemma findBlockEnd_prefix (p content : string) (tag : blockTag) :
  (forall j, j < String.length p ->
     openPattern tag (sliceFrom j (p +:+ content)) = None /\
     closePattern tag (sliceFrom j (p +:+ content)) = None) ->
  findBlockEnd (p +:+ content) tag
  = Block (p +:+ body (findBlockEnd content tag)) (rest (findBlockEnd content tag)).
Proof.
  intros Hp. unfold findBlockEnd.
  rewrite (findBlockEnd_loop_S (p +:+ content)), (findBlockEnd_loop_S content).
  simpl sliceFrom.
  rewrite (search_skip (closePattern tag) (String.length p) (p +:+ content))
    by (intros j Hj; by apply Hp).
  rewrite (search_skip (openPattern tag) (String.length p) (p +:+ content))
    by (intros j Hj; by apply Hp).
  rewrite sliceFrom_app.
  change (0 <? 1) with true. cbn [andb].
  destruct (search (closePattern tag) content) as [[ci cl]|] eqn:Hsc.
  2:{ simpl. by destruct (0 <? String.length content),
                         (0 <? String.length (p +:+ content)). }
  assert (7 <= cl /\ 0 < String.length content) as [Hcl Hnc].
  { apply search_Some in Hsc as [Hc%closePattern_length _].
    rewrite length_sliceFrom in Hc. lia. }
  assert (0 < String.length (p +:+ content)) as Hnp by (rewrite length_app_s; lia).
  apply Nat.ltb_lt in Hnc as Hnc'. apply Nat.ltb_lt in Hnp as Hnp'.
  rewrite Hnc', Hnp'.
  cbn [fmap option_fmap option_map fst snd]. cbv zeta. change (1 - 1 =? 0) with true.
  cbv iota. simpl Nat.add.
  assert (Block (sliceTo (String.length p + ci) (p +:+ content))
                (sliceFrom (String.length p + ci + cl) (p +:+ content))
          = Block (p +:+ sliceTo ci content) (sliceFrom (ci + cl) content)) as Hclose.
  { by rewrite <- Nat.add_assoc, sliceTo_app_add, sliceFrom_app_add. }
  destruct (search (openPattern tag) content) as [[oi ol]|] eqn:Hso;
    cbn [fmap option_fmap option_map fst snd]; [|apply Hclose].
  replace (String.length p + oi <? String.length p + ci) with (oi <? ci).
  2:{ destruct (Nat.ltb_spec oi ci); symmetry; [apply Nat.ltb_lt | apply Nat.ltb_ge]; lia. }
  destruct (oi <? ci); [|apply Hclose].
  assert (6 <= ol).
  { apply search_Some in Hso as [Ho%openPattern_length _]. lia. }
  rewrite <- !Nat.add_assoc, findBlockEnd_loop_after.
  rewrite (findBlockEnd_loop_bound content tag (String.length (p +:+ content))
             (String.length content)); [done | |];
    rewrite ?length_app_s; lia.
Qed.

(** ** Blocks without nested blocks *)

(** A marker does not begin in a text that does not hold it, whatever text
    beginning with two braces follows. *)
Lemma marker_straddle (m : ascii) (s x : string) :
  Ascii.eqb m "{" = false -> s <> "" ->
  startsWith (String "{" (String "{" (String m ""))) s = false ->
  startsWith (String "{" (String "{" (String m ""))) (s +:+ "{{" +:+ x) = false.
Proof.
  intros Hm Hs. destruct s as [|c1 [|c2 [|c3 s]]]; [done|..]; simpl.
  - intros _. destruct (Ascii.eqb "{" c1); [|done]. simpl. by rewrite Hm.
  - intros _. destruct (Ascii.eqb "{" c1); [|done].
    destruct (Ascii.eqb "{" c2); [|done]. simpl. by rewrite Hm.
  - done.
Qed.

Lemma sliceFrom_app_lt (a b : string) (j : nat) :
  j < String.length a ->
  sliceFrom j (a +:+ b) = sliceFrom j a +:+ b /\ sliceFrom j a <> "".
Proof.
  revert j; induction a as [|c a IH]; intros j Hj; simpl in Hj; [lia|].
  destruct j as [|j]; [done|]. simpl. apply IH. lia.
Qed.

Lemma openPattern_marker (tag : blockTag) (s : string) (len : nat) :
  openPattern tag s = Some len -> startsWith "{{#" s = true.
Proof.
  intros (alt & c & r & _ & -> & _)%openPattern_shape. done.
Qed.

Lemma closePattern_marker (tag : blockTag) (s : string) (len : nat) :
  closePattern tag s = Some len -> startsWith "{{/" s = true.
Proof.
  intros (alt & r & _ & -> & _)%closePattern_shape. done.
Qed.

(** No tag starts inside a text that holds neither marker, whatever text
    beginning with two braces follows. *)
Lemma no_tag_in_flat (tag : blockTag) (b x : string) (j : nat) :
  indexOf "{{#" b = None -> indexOf "{{/" b = None -> j < String.length b ->
  openPattern tag (sliceFrom j (b +:+ "{{" +:+ x)) = None /\
  closePattern tag (sliceFrom j (b +:+ "{{" +:+ x)) = None.
Proof.
  intros Ho Hc Hj. destruct (sliceFrom_app_lt b ("{{" +:+ x) j Hj) as [-> Hne].
  split.
  - destruct (openPattern tag _) as [len|] eqn:E; [|done].
    apply openPattern_marker in E.
    by rewrite (marker_straddle "#") in E by (done || by apply indexOf_None).
  - destruct (closePattern tag _) as [len|] eqn:E; [|done].
    apply closePattern_marker in E.
    by rewrite (marker_straddle "/") in E by (done || by apply indexOf_None).
Qed.

Lemma findBlockEnd_closing (kind r : string) (tag : blockTag) :
  kind = "if" \/ kind = "each" \/ kind = "unless" ->
  findBlockEnd ("{{/" +:+ kind +:+ "}}" +:+ r) tag = Block "" r.
Proof.
  intros Hkind. unfold findBlockEnd. rewrite findBlockEnd_loop_S.
  assert (search (closePattern tag) (sliceFrom 0 ("{{/" +:+ kind +:+ "}}" +:+ r))
          = Some (0, String.length ("{{/" +:+ kind +:+ "}}"))) as ->.
  { by destruct Hkind as [->|[->| ->]], tag. }
  change (0 <? 1) with true. change (0 <? String.length _) with true.
  cbn [andb]. cbv zeta. change (1 - 1 =? 0) with true. cbv iota.
  assert (sliceFrom (0 + 0 + String.length ("{{/" +:+ kind +:+ "}}"))
            ("{{/" +:+ kind +:+ "}}" +:+ r) = r) as ->.
  { by destruct Hkind as [->|[->| ->]]. }
  by destruct (search (openPattern tag) _) as [[oi ol]|].
Qed.

(** A block whose body holds neither the marker of an opening block tag
    nor that of a closing tag ends at the first closing tag after it, of
    whatever kind: the body is the text before the tag, the rest the text
    after it. *)
Theorem findBlockEnd_flat (b kind r : string) (tag : blockTag) :
  indexOf "{{#" b = None -> indexOf "{{/" b = None ->
  kind = "if" \/ kind = "each" \/ kind = "unless" ->
  findBlockEnd (b +:+ "{{/" +:+ kind +:+ "}}" +:+ r) tag = Block b r.
Proof.
  intros Ho Hc Hkind. rewrite findBlockEnd_prefix.
  - rewrite findBlockEnd_closing by done. simpl. by rewrite app_empty_r.
  - intros j Hj. by apply (no_tag_in_flat tag b ("/" +:+ kind +:+ "}}" +:+ r)).
Qed.

Lemma findBlockEnd_flat_witness :
  findBlockEnd ("Hello {{name}}" +:+ "{{/" +:+ "if" +:+ "}}" +:+ "<p>{{/each}}") TagEach
  = Block "Hello {{name}}" "<p>{{/each}}".
Proof.
  apply (findBlockEnd_flat "Hello {{name}}" "if" "<p>{{/each}}" TagEach);
    [reflexivity | reflexivity | left; reflexivity].
Defined.

(** ** The else split: further properties *)

Lemma countBelow_none (f : nat -> bool) (n : nat) :
  (forall j, f j = false) -> countBelow f n = 0.
Proof. intros Hf. induction n as [|n IH]; simpl; [done|]. by rewrite IH, Hf. Qed.

Lemma closeTag_marker (s : string) : closeTag s = true -> startsWith "{{/" s = true.
Proof.
  rewrite (closeTag_closePattern TagIf).
  destruct (closePattern TagIf s) as [len|] eqn:E; [|done].
  intros _. by apply closePattern_marker in E.
Qed.

(** Without a marker of an opening or closing tag in the body, the body is
    split at its first else marker. *)
Lemma splitElse_flat (body : string) :
  indexOf "{{#" body = None -> indexOf "{{/" body = None ->
  splitElse body =
  match indexOf "{{else}}" body with
  | Some i => (sliceTo i body, sliceFrom (i + String.length "{{else}}") body)
  | None => (body, "")
  end.
Proof.
  intros Ho Hc.
  assert (forall i, elseDepth body i = 0%Z) as Hdepth.
  { intros i. unfold elseDepth, elseDepthBefore. rewrite !countBelow_none; [done|..].
    - intros j. unfold closeTagAt. destruct (closeTag _) eqn:E; [|done].
      apply closeTag_marker in E. by rewrite (indexOf_None _ _ Hc) in E.
    - intros j. unfold markerAt. by apply indexOf_None. }
  destruct (indexOf "{{else}}" body) as [i|] eqn:He.
  - apply splitElse_first_else; [by apply indexOf_Some | done |].
    intros k Hk [_ Hk']. unfold elseAt in Hk'.
    by rewrite (indexOf_first _ _ _ He k Hk) in Hk'.
  - apply splitElse_no_else. intros k [_ Hk]. unfold elseAt in Hk.
    by rewrite (indexOf_None _ _ He) in Hk.
Qed.

(** The else split loses nothing: either the body is left whole, with an
    empty else part, or it is the if part, one else marker, and the else
    part. *)
Theorem splitElse_pieces (body : string) :
  splitElse body = (body, "") \/
  body = (splitElse body).1 +:+ "{{else}}" +:+ (splitElse body).2.
Proof.
  unfold splitElse.
  pose proof (elseScan_spec body body 0 eq_refl) as Hspec.
  change (elseDepthBefore body 0) with 0%Z in Hspec.
  destruct (elseScan body 0 0) as [j|]; [right | by left].
  destruct Hspec as (_ & _ & He & _). unfold elseAt in He.
  apply startsWith_inv in He. cbn [fst snd].
  rewrite <- sliceFrom_sliceFrom, <- He. by rewrite sliceTo_sliceFrom.
Qed.

(** A body with an else marker inside a nested if block and one after
    it. *)
Lemma splitElse_top_level_witness :
  splitElse "a{{#if x}}b{{else}}c{{/if}}d{{else}}e"
  = ("a{{#if x}}b{{else}}c{{/if}}d", "e").
Proof.
  apply (splitElse_top_level "a{{#if x}}b{{else}}c{{/if}}d{{else}}e" 28).
  - intros k. do 37 (destruct k as [|k]; [by vm_compute|]). by destruct k.
  - reflexivity.
  - reflexivity.
  - intros k Hk. do 28 (destruct k as [|k]; [vm_compute; by intros [? ?]|]). lia.
Defined.

Lemma no_tag_in_else (tag : blockTag) (content : string) (j : nat) :
  j < 8 ->
  openPattern tag (sliceFrom j ("{{else}}" +:+ content)) = None /\
  closePattern tag (sliceFrom j ("{{else}}" +:+ content)) = None.
Proof.
  intros Hj. do 8 (destruct j as [|j]; [by destruct tag|]). lia.
Qed.

(** An unless block is an if block with an empty if part: it renders as
    the if block on the same path whose body starts with an else marker. *)
Theorem render_unless_as_if (fuel : nat) (context : gmap string value)
    (partials : gmap string string) (ws path content : string) :
  run is_space ws = true -> run is_path_char path = true ->
  render (S fuel) ("{{#unless" +:+ ws +:+ path +:+ "}}" +:+ content) context partials
  = render (S fuel) ("{{#if" +:+ ws +:+ path +:+ "}}" +:+ "{{else}}" +:+ content)
      context partials.
Proof.
  intros Hws Hpath.
  rewrite render_unless, (render_if fuel context partials ws path) by done.
  cbv zeta. rewrite (findBlockEnd_prefix "{{else}}").
  2:{ intros j Hj. by apply no_tag_in_else. }
  assert (findBlockEnd content TagIf = findBlockEnd content TagUnless) as ->
    by apply findBlockEnd_loop_any_tag.
  cbn [body rest].
  change (splitElse ("{{else}}" +:+ ?b)) with ("", b).
  apply bind_ext. intros val. cbn [fst snd].
  destruct (truthy val); cbn [negb]; [by rewrite render_empty | done].
Qed.

Lemma render_unless_as_if_witness :
  render 3 ("{{#unless" +:+ " " +:+ "done" +:+ "}}" +:+ "todo{{/unless}}!") ∅ ∅
  = render 3 ("{{#if" +:+ " " +:+ "done" +:+ "}}" +:+ "{{else}}" +:+ "todo{{/unless}}!")
      ∅ ∅.
Proof.
  apply (render_unless_as_if 2 ∅ ∅ " " "done" "todo{{/unless}}!"); reflexivity.
Defined.

(** An if block whose body holds no marker of an opening or closing tag:
    the text before the first else marker is rendered when the condition is
    truthy, the text after it otherwise, the whole body when there is no
    else marker; the text after the closing tag is rendered next. *)
Theorem render_if_flat (fuel : nat) (context : gmap string value)
    (partials : gmap string string) (ws path inner kind tail : string) :
  run is_space ws = true -> run is_path_char path = true ->
  indexOf "{{#" inner = None -> indexOf "{{/" inner = None ->
  kind = "if" \/ kind = "each" \/ kind = "unless" ->
  render (S fuel)
    ("{{#if" +:+ ws +:+ path +:+ "}}" +:+ inner +:+ "{{/" +:+ kind +:+ "}}" +:+ tail)
    context partials
  = let* val := resolve context path in
    let* r := render fuel
                (match indexOf "{{else}}" inner with
                 | Some i => if truthy val then sliceTo i inner
                             else sliceFrom (i + String.length "{{else}}") inner
                 | None => if truthy val then inner else ""
                 end) context partials in
    let* k := render fuel tail context partials in
    Done (after r.1 r.2 k).
Proof.
  intros Hws Hpath Ho Hc Hkind. rewrite render_if by done. cbv zeta.
  rewrite findBlockEnd_prefix
    by (intros j Hj; by apply (no_tag_in_flat TagIf inner ("/" +:+ kind +:+ "}}" +:+ tail))).
  rewrite findBlockEnd_closing by done. cbn [body rest]. rewrite app_empty_r.
  rewrite splitElse_flat by done.
  apply bind_ext. intros val.
  by destruct (indexOf "{{else}}" inner), (truthy val).
Qed.

Lemma render_if_flat_witness :
  render 4 ("{{#if" +:+ " " +:+ "user" +:+ "}}" +:+ "Hi {{user}}{{else}}Sign in"
            +:+ "{{/" +:+ "if" +:+ "}}" +:+ ".")
    (<["user" := VStr "Ann"]> ∅) ∅
  = Done ("Hi Ann.", []).
Proof.
  etransitivity.
  - apply (render_if_flat 3 (<["user" := VStr "Ann"]> ∅) ∅ " " "user"
             "Hi {{user}}{{else}}Sign in" "if" ".");
      [reflexivity | reflexivity | reflexivity | reflexivity | left; reflexivity].
  - reflexivity.
Defined.

(** ** Tags one by one *)

Lemma word_not_dot (c : ascii) : is_word c = true -> negb (Ascii.eqb c ".") = true.
Proof. destruct c as [[] [] [] [] [] [] [] []]; by vm_compute. Qed.

(** A variable tag converts the resolved value as String does and puts
    the text into the output as it is, neither escaped nor rendered again,
    and nothing for undefined and null; the falsy values 0 and false are
    written out.  A mapping is written as [object Object], unless it has an
    entry toString of its own: with a string there, the conversion raises a
    TypeError. *)
Theorem render_variable_value (fuel : nat) (context : gmap string value)
    (partials : gmap string string) (path content : string) (v : value) :
  run is_var_char path = true ->
  resolvePath (VObj context) path = Done v ->
  render (S fuel) ("{{" +:+ path +:+ "}}" +:+ content) context partials
  = (let* text := shown v in
     let* k := render fuel content context partials in
     Done (after text [] k)) /\
  (forall s, shown (VStr s) = Done s) /\
  shown VUndefined = Done "" /\ shown VNull = Done "" /\
  shown (VNum 0) = Done "0" /\ shown (VBool false) = Done "false" /\
  (forall props, props !! "toString" = None ->
     shown (VObj props) = Done "[object Object]") /\
  (forall props s, props !! "toString" = Some (VStr s) ->
     props !! "valueOf" = None -> shown (VObj props) = Throws).
Proof.
  intros Hpath Hv. split.
  - rewrite render_var by done. unfold resolve. by rewrite Hv.
  - repeat split; try done.
    + intros props Hp. simpl. by rewrite Hp.
    + intros props s Hp Hq. simpl. by rewrite Hp, Hq.
Qed.

Lemma render_variable_value_witness :
  render 2 ("{{" +:+ "item.html" +:+ "}}" +:+ "!")
    (<["item" := VObj (<["html" := VStr "<b>{{x}}</b>"]> ∅)]> ∅) ∅
  = Done ("<b>{{x}}</b>!", []).
Proof.
  etransitivity.
  - apply (render_variable_value 1
             (<["item" := VObj (<["html" := VStr "<b>{{x}}</b>"]> ∅)]> ∅) ∅
             "item.html" "!" (VStr "<b>{{x}}</b>")); reflexivity.
  - reflexivity.
Defined.

Lemma match_var_stops (s : string) :
  stops is_var_char s = true -> match_var ("{{" +:+ s) = None.
Proof.
  intros Hs. unfold match_var. rewrite stripPrefix_app.
  destruct s as [|c s]; [done|]. simpl in *.
  by apply negb_true_iff in Hs as ->.
Qed.

(** A marker that no tag pattern matches because of the character after
    it, a space, a slash or a third brace for instance, or because the
    template ends there: the two braces are written out and the scan goes
    on after them. *)
Theorem render_unrecognized_marker (fuel : nat) (context : gmap string value)
    (partials : gmap string string) (s : string) :
  stops is_tag_start s = true ->
  render (S fuel) ("{{" +:+ s) context partials
  = let* k := render fuel s context partials in Done (after "{{" [] k).
Proof.
  intros Hs. rewrite render_unfold.
  change (0 <? String.length _) with true. cbv iota.
  rewrite loop_body_marker. cbv zeta.
  assert (stops is_var_char s = true /\
          startsWith ">" s = false /\ startsWith "#" s = false) as (Hv & Hgt & Hhash).
  { destruct s as [|c s]; [done|]. unfold is_tag_start in Hs. simpl in *.
    apply negb_true_iff in Hs. apply orb_false_elim in Hs as [Hs Hh].
    apply orb_false_elim in Hs as [Hs Hg]. rewrite Hs.
    rewrite (Ascii.eqb_sym ">"), (Ascii.eqb_sym "#"), Hg, Hh. done. }
  rewrite (match_var_stops s Hv).
  assert (match_partial ("{{" +:+ s) = None) as ->.
  { unfold match_partial, stripPrefix.
    change (startsWith "{{>" ("{{" +:+ s)) with (startsWith ">" s). by rewrite Hgt. }
  assert (forall kind, match_block kind ("{{" +:+ s) = None) as Hb.
  { intros kind. unfold match_block, stripPrefix.
    change (startsWith ("{{#" +:+ kind) ("{{" +:+ s))
      with (startsWith ("#" +:+ kind) s).
    destruct s as [|c s]; [done|]. simpl in *.
    apply andb_false_iff in Hhash as [->|?]; done. }
  rewrite !Hb. apply (emit_continue ("{{", [])).
Qed.

Lemma render_unrecognized_marker_witness :
  render 3 ("{{" +:+ " name }}") (<["name" := VStr "Ann"]> ∅) ∅ = Done ("{{ name }}", []) /\
  render 3 ("{{" +:+ "/if}}") ∅ ∅ = Done ("{{/if}}", []).
Proof.
  split.
  - etransitivity; [apply (render_unrecognized_marker 2 _ ∅ " name }}")|]; reflexivity.
  - etransitivity; [apply (render_unrecognized_marker 2 ∅ ∅ "/if}}")|]; reflexivity.
Defined.

(** A partial that is registered with an empty text is reported as not
    found: the warning is written and nothing is put out. *)
Theorem render_partial_empty (fuel : nat) (context : gmap string value)
    (partials : gmap string string) (ws1 name ws2 content : string) :
  all_chars is_space ws1 = true -> run is_word name = true ->
  all_chars is_space ws2 = true ->
  partials !! name = Some "" ->
  render (S fuel) ("{{>" +:+ ws1 +:+ name +:+ ws2 +:+ "}}" +:+ content) context partials
  = let* k := render fuel content context partials in Done (after "" [warning name] k).
Proof.
  intros Hws1 Hname Hws2 Hp. rewrite render_partial by done.
  unfold lookupPartial. by rewrite Hp.
Qed.

Lemma render_partial_empty_witness :
  render 2 ("{{>" +:+ " " +:+ "nav" +:+ "" +:+ "}}" +:+ "x") ∅ (<["nav" := ""]> ∅)
  = Done ("x", [warning "nav"]).
Proof.
  etransitivity.
  - apply (render_partial_empty 1 ∅ (<["nav" := ""]> ∅) " " "nav" "" "x"); reflexivity.
  - reflexivity.
Defined.

(** A registered partial with a variable, referred to with spaces around
    its name. *)
Lemma render_partial_reference_witness :
  render_loop 3 (<["t" := VStr "T"]> ∅) (<["head" := "<h1>{{t}}</h1>"]> ∅)
    (State "<body>" [] ("{{>" +:+ " " +:+ "head" +:+ " " +:+ "}}" +:+ "</body>"))
  = Done ("<body><h1>T</h1></body>", []).
Proof.
  destruct (render_partial_reference 2 (<["t" := VStr "T"]> ∅)
              (<["head" := "<h1>{{t}}</h1>"]> ∅) "<body>" [] " " "head" " " "</body>")
    as [_ H]; [reflexivity | reflexivity | reflexivity |].
  apply (H "<h1>{{t}}</h1>" ("<h1>T</h1>", []) ("</body>", []));
    [reflexivity | discriminate | reflexivity | reflexivity].
Defined.

(** A variable whose name is neither a key of the context nor a member of
    Object.prototype puts nothing out: the template renders as it does
    without the tag. *)
Theorem render_missing_variable (fuel : nat) (context : gmap string value)
    (partials : gmap string string) (key content : string) :
  run is_word key = true ->
  context !! key = None -> objectPrototype key = None ->
  resolvePath (VObj context) key = Done VUndefined /\
  render (S fuel) ("{{" +:+ key +:+ "}}" +:+ content) context partials
  = render fuel content context partials.
Proof.
  intros Hkey Hctx Hproto.
  assert (resolvePath (VObj context) key = Done VUndefined) as Hres.
  { unfold resolvePath. rewrite split_no_sep.
    - simpl. rewrite Hctx. unfold inherited. by rewrite Hproto.
    - apply all_chars_impl with is_word; [apply word_not_dot | by apply run_all]. }
  split; [done|]. rewrite render_var.
  - unfold resolve. rewrite Hres. cbn [bind shown].
    destruct (render fuel content context partials) as [[o l]| | |]; done.
  - unfold run in *. apply andb_prop in Hkey as [-> Hk]. simpl.
    apply all_chars_impl with is_word; [|done].
    intros c Hc. unfold is_var_char, is_path_char. by rewrite Hc.
Qed.

Lemma render_missing_variable_witness :
  render 3 ("{{" +:+ "title" +:+ "}}" +:+ "<p>") ∅ ∅ = render 2 "<p>" ∅ ∅.
Proof.
  apply (render_missing_variable 2 ∅ ∅ "title" "<p>"); reflexivity.
Defined.

(** A partial whose text refers to the partial itself, after text without
    a marker, never finishes rendering: every budget is used up. *)
Theorem render_partial_self_reference (context : gmap string value)
    (partials : gmap string string) (name lit ws1 ws2 tail : string) :
  run is_word name = true ->
  all_chars is_space ws1 = true -> all_chars is_space ws2 = true ->
  indexOf "{{" (lit +:+ "{") = None ->
  partials !! name = Some (lit +:+ "{{>" +:+ ws1 +:+ name +:+ ws2 +:+ "}}" +:+ tail) ->
  forall fuel ws3 ws4 content,
    all_chars is_space ws3 = true -> all_chars is_space ws4 = true ->
    render fuel ("{{>" +:+ ws3 +:+ name +:+ ws4 +:+ "}}" +:+ content) context partials
    = OutOfFuel.
Proof.
  intros Hname Hws1 Hws2 Hlit Hp fuel.
  induction fuel as [|fuel IH]; intros ws3 ws4 content Hws3 Hws4; [done|].
  rewrite render_partial by done. unfold lookupPartial. rewrite Hp. cbv zeta.
  cbn [falsy renderEntry].
  assert (String.eqb (lit +:+ "{{>" +:+ ws1 +:+ name +:+ ws2 +:+ "}}" +:+ tail) ""
          = false) as ->.
  { apply String.eqb_neq. by destruct lit. }
  destruct fuel as [|fuel].
  - unfold render. rewrite render_loop_unfold. cbn [remaining].
    rewrite length_app_s. simpl String.length.
    by replace (0 <? String.length lit + _) with true
      by (symmetry; apply Nat.ltb_lt; lia).
  - rewrite render_text by done. by rewrite (IH ws1 ws2 tail).
Qed.

Lemma render_partial_self_reference_witness :
  render 40 ("{{>" +:+ "" +:+ "me" +:+ "" +:+ "}}" +:+ "") ∅
    (<["me" := "x" +:+ "{{>" +:+ " " +:+ "me" +:+ "" +:+ "}}" +:+ "y"]> ∅)
  = OutOfFuel.
Proof.
  apply (render_partial_self_reference ∅ (<["me" := "x{{> me}}y"]> ∅)
           "me" "x" " " "" "y"); reflexivity.
Defined.

(** ** Warnings *)

Lemma mapIndexed_quiet (f : value -> nat -> outcome rendered) index items rs :
  (forall item i r, f item i = Done r -> r.2 = []) ->
  mapIndexed f index items = Done rs -> (joined rs).2 = [].
Proof.
  intros Hf. revert index rs; induction items as [|item items IH]; intros index rs; simpl.
  - by intros [= <-].
  - intros (r & Hr & (rs' & Hrs & [= <-])%bind_Done_inv)%bind_Done_inv.
    unfold joined. simpl. rewrite (Hf _ _ _ Hr). simpl.
    apply (IH _ _ Hrs).
Qed.

(** Without a partial reference in the remaining text, an iteration adds
    no warning of its own. *)
Lemma loop_body_quiet rec context partials (st : state) (s : step) :
  hasPartialTag (remaining st) = false ->
  (forall t c r, hasPartialTag t = false -> rec t c partials = Done r -> r.2 = []) ->
  loop_body rec context partials st = Done s ->
  match s with
  | Break r => r.2 = warnings st
  | Continue st' => warnings st' = warnings st
  end.
Proof.
  intros Hfree Hrec. unfold loop_body.
  destruct (indexOf "{{" (remaining st)) as [tagIdx|] eqn:Hidx; [|by intros [= <-]].
  pose proof (hasPartialTag_sliceFrom tagIdx _ Hfree) as Hfree'.
  set (rem := sliceFrom tagIdx (remaining st)) in *.
  assert (match_partial rem = None) as ->.
  { rewrite hasPartialTag_false in Hfree'. apply (Hfree' 0). }
  assert (forall out r rem', r.2 = [] -> emit st out r rem' = Done s ->
            match s with
            | Break r => r.2 = warnings st
            | Continue st' => warnings st' = warnings st
            end) as Hemit.
  { intros out r rem' Hr. unfold emit. intros [= <-]. simpl.
    by rewrite Hr, app_nil_r. }
  assert (forall len i, hasPartialTag (sliceTo i (sliceFrom len rem)) = false) as Hbody.
  { intros. by apply hasPartialTag_sliceTo, hasPartialTag_sliceFrom. }
  destruct (match_block "each" rem) as [[path len]|].
  { intros (arr & _ & (r & Hr & He)%bind_Done_inv)%bind_Done_inv.
    apply (Hemit _ _ _) in He; [done|].
    destruct (isArray arr) as [items|]; [|by injection Hr as <-].
    apply bind_Done_inv in Hr as (rs & Hrs & [= <-]).
    apply (mapIndexed_quiet _ _ _ _) in Hrs; [done|].
    intros item i r. apply Hrec.
    destruct (findBlockEnd_parts (sliceFrom len rem) TagEach) as (k & j & -> & _).
    apply Hbody. }
  destruct (match_block "if" rem) as [[path len]|].
  { intros (val & _ & H)%bind_Done_inv.
    destruct (findBlockEnd_parts (sliceFrom len rem) TagIf) as (i & j & Hb & _).
    destruct (splitElse_parts (body (findBlockEnd (sliceFrom len rem) TagIf)))
      as (k & l & Hk & Hl).
    destruct (splitElse _) as [ifBody elseBody]. simpl in Hk, Hl. subst ifBody elseBody.
    apply bind_Done_inv in H as (r & Hr & He).
    apply (Hemit _ _ _) in He; [done|]. apply Hrec in Hr; [done|]. rewrite Hb.
    destruct (truthy val);
      [apply hasPartialTag_sliceTo | apply hasPartialTag_sliceFrom]; apply Hbody. }
  destruct (match_block "unless" rem) as [[path len]|].
  { intros (val & _ & (r & Hr & He)%bind_Done_inv)%bind_Done_inv.
    apply (Hemit _ _ _) in He; [done|].
    destruct (negb (truthy val)); [|by injection Hr as <-].
    apply Hrec in Hr; [done|].
    destruct (findBlockEnd_parts (sliceFrom len rem) TagUnless) as (k & j & -> & _).
    apply Hbody. }
  destruct (match_var rem) as [[path len]|].
  { intros (val & _ & (text & _ & He)%bind_Done_inv)%bind_Done_inv.
    by apply (Hemit _ _ _) in He. }
  intros He. by apply (Hemit _ _ _) in He.
Qed.

Lemma render_loop_quiet (partials : gmap string string) (fuel : nat) :
  forall context st r,
    hasPartialTag (remaining st) = false ->
    render_loop fuel context partials st = Done r -> r.2 = warnings st.
Proof.
  induction fuel as [|fuel IH]; intros context st r Hfree; rewrite render_loop_unfold.
  - destruct (0 <? _); [done | by intros [= <-]].
  - destruct (0 <? _); [|by intros [= <-]].
    intros (s & Hs & Hr)%bind_Done_inv.
    pose proof (loop_body_quiet _ _ _ _ _ Hfree
      (fun t c r' Ht Hr' => IH c (State "" [] t) r' Ht Hr') Hs) as Hq.
    destruct s as [r'|st']; [by injection Hr as <-|].
    destruct (loop_body_suffix _ _ _ _ _ Hs) as [j Hj].
    rewrite <- Hq. apply (IH context st' r); [|done].
    rewrite Hj. by apply hasPartialTag_sliceFrom.
Qed.

(** Only a partial reference writes a warning: a template without one
    renders without any, whatever the context and the registry. *)
Theorem render_no_warning (fuel : nat) (template : string) (context : gmap string value)
    (partials : gmap string string) (r : rendered) :
  hasPartialTag template = false ->
  render fuel template context partials = Done r ->
  r.2 = [].
Proof.
  intros Hfree Hr.
  apply (render_loop_quiet partials fuel context (State "" [] template) r Hfree Hr).
Qed.

Lemma render_no_warning_witness :
  (render 9 "{{#each xs}}{{this}},{{/each}}" (<["xs" := VArr [VNum 1; VNum 2]]> ∅) ∅
   = Done ("1,2,", [])) /\ ("1,2,", @nil string).2 = [].
Proof.
  split; [reflexivity|].
  apply (render_no_warning 9 "{{#each xs}}{{this}},{{/each}}"
           (<["xs" := VArr [VNum 1; VNum 2]]> ∅) ∅ ("1,2,", [])); reflexivity.
Defined.

(** ** The context of a page *)

Lemma page_key_own (name : string) : objectPrototype ("page_" +:+ name) = None.
Proof. unfold objectPrototype. simpl. by repeat case_decide. Qed.

Lemma split_head_prefix (sep : ascii) (s key : string) (keys : list string) :
  split sep s = key :: keys -> startsWith key s = true.
Proof.
  revert key keys; induction s as [|c s IH]; intros key keys; simpl.
  - by intros [= <- <-].
  - destruct (Ascii.eqb c sep); [by intros [= <- <-]|].
    destruct (split sep s) as [|h t];
      [intros [= <- <-]; simpl; by rewrite Ascii.eqb_refl|].
    intros [= <- <-]. simpl. by rewrite Ascii.eqb_refl, (IH h t).
Qed.

Lemma startsWith_trans (p q s : string) :
  startsWith p q = true -> startsWith q s = true -> startsWith p s = true.
Proof.
  revert q s; induction p as [|a p IH]; intros q s; [done|].
  destruct q as [|b q]; [done|]. destruct s as [|c s]; [done|]. simpl.
  intros [->%Ascii.eqb_eq Hp]%andb_prop [->%Ascii.eqb_eq Hq]%andb_prop.
  rewrite Ascii.eqb_refl. simpl. by apply (IH q).
Qed.

Lemma pageContext_other (data : gmap string value) (pageName key : string) :
  key <> "page" -> key <> "page_" +:+ pageName ->
  pageContext data pageName !! key = data !! key.
Proof. intros. unfold pageContext. by rewrite !lookup_insert_ne. Qed.

(** The context [build] renders a page with: page holds the name of the
    page and the flag named after the page is true, whatever the data
    files hold under these names; the flag of another page is undefined
    unless the data holds it; every path that does not begin with page
    resolves as in the data. *)
Theorem pageContext_resolve (data : gmap string value) (pageName : string) :
  all_chars is_word pageName = true ->
  resolvePath (VObj (pageContext data pageName)) "page" = Done (VStr pageName) /\
  resolvePath (VObj (pageContext data pageName)) ("page_" +:+ pageName)
    = Done (VBool true) /\
  (forall other, all_chars is_word other = true -> other <> pageName ->
     data !! ("page_" +:+ other) = None ->
     resolvePath (VObj (pageContext data pageName)) ("page_" +:+ other)
     = Done VUndefined) /\
  (forall dotPath, startsWith "page" dotPath = false ->
     resolvePath (VObj (pageContext data pageName)) dotPath
     = resolvePath (VObj data) dotPath).
Proof.
  intros Hname.
  assert (forall name, all_chars is_word name = true ->
            split "." ("page_" +:+ name) = ["page_" +:+ name]) as Hsplit.
  { intros name Hn. apply split_no_sep.
    apply all_chars_impl with is_word; [apply word_not_dot|]. simpl. by rewrite Hn. }
  split; [|split; [|split]].
  - unfold resolvePath, pageContext. simpl.
    rewrite lookup_insert_ne by done. by rewrite lookup_insert_eq.
  - unfold resolvePath. rewrite Hsplit by done. unfold pageContext. simpl.
    by rewrite lookup_insert_eq.
  - intros other Hother Hne Hdata. unfold resolvePath. rewrite Hsplit by done.
    cbn [reduce resolveStep get].
    rewrite pageContext_other, Hdata; [|done|].
    + unfold inherited. by rewrite page_key_own.
    + intros [= ?]. done.
  - intros dotPath Hp. unfold resolvePath.
    pose proof (split_nonempty "." dotPath) as Hne.
    destruct (split "." dotPath) as [|key keys] eqn:Hs; [done|].
    apply split_head_prefix in Hs. cbn [reduce resolveStep get].
    rewrite pageContext_other; [done|..]; intros ->.
    + congruence.
    + rewrite (startsWith_trans "page" ("page_" +:+ pageName) dotPath) in Hp; done.
Qed.

Lemma pageContext_resolve_witness :
  resolvePath (VObj (pageContext (<["page" := VStr "x"]> ∅) "about")) "page"
    = Done (VStr "about") /\
  resolvePath (VObj (pageContext (<["page" := VStr "x"]> ∅) "about")) "page_about"
    = Done (VBool true).
Proof.
  destruct (pageContext_resolve (<["page" := VStr "x"]> ∅) "about") as (H1 & H2 & _);
    [reflexivity|].
  split; [exact H1 | exact H2].
Defined.
